(** * Krishi Sakhi / Agro AI: the web endpoint (app.py) and the terminal
      assistant (chatbot.py), embedded and verified.

    Python [str] values are sequences of Unicode code points: replies may be
    Malayalam text, and [str.strip] removes Unicode white space, so a string
    is a [list N] of code points rather than a list of bytes.  External
    collaborators (the PDF reader, the Gemini model, speech recognition,
    language detection, text to speech) are oracles: Section variables whose
    results are either a value or a raised exception. *)

From Stdlib Require Import NArith ZArith QArith_base Ascii String SpecFloat.
From stdpp Require Import base option list gmap.

Set Default Proof Using "Type".
Set Warnings "-register-all".

(** ** Python strings *)

Module PyStr.

Abbreviation str := (list N).

(** A literal of the source, read code point by code point (the literals of
    both programs are ASCII apart from one emoji, written by its number). *)
Definition u (s : string) : str :=
  map N_of_ascii (list_ascii_of_string s).
Arguments u : simpl never.

Definition nl : N := 10%N.

(** [str.isspace] on one code point: CPython's [_PyUnicode_IsWhitespace]. *)
Definition isspace (c : N) : bool :=
  ((9 <=? c) && (c <=? 13) || (28 <=? c) && (c <=? 32)
   || (c =? 133) || (c =? 160) || (c =? 5760)
   || (8192 <=? c) && (c <=? 8202)
   || (c =? 8232) || (c =? 8233) || (c =? 8239) || (c =? 8287)
   || (c =? 12288))%N.

Fixpoint lstrip (s : str) : str :=
  match s with
  | [] => []
  | c :: s' => if isspace c then lstrip s' else s
  end.

Definition rstrip (s : str) : str := reverse (lstrip (reverse s)).

(** [s.strip()] *)
Definition strip (s : str) : str := rstrip (lstrip s).

(** [s.startswith(p)] *)
Fixpoint startswith (p s : str) : bool :=
  match p, s with
  | [], _ => true
  | _ :: _, [] => false
  | a :: p', b :: s' => (a =? b)%N && startswith p' s'
  end.

(** [sub in s] *)
Fixpoint contains (sub s : str) : bool :=
  startswith sub s
  || match s with
     | [] => false
     | _ :: s' => contains sub s'
     end.

(** The scan of [s.replace(old, new)] for a non-empty [old]: left to right,
    occurrences do not overlap; [skip] counts the characters of a matched
    occurrence still to be passed over. *)
Fixpoint replace_scan (old new : str) (skip : nat) (s : str) : str :=
  match s with
  | [] => []
  | c :: s' =>
      match skip with
      | S k => replace_scan old new k s'
      | O =>
          if startswith old s
          then new ++ replace_scan old new (length old - 1) s'
          else c :: replace_scan old new 0 s'
      end
  end.

(** [s.replace(old, new)]; an empty [old] matches between all characters. *)
Definition replace (old new s : str) : str :=
  match old with
  | [] => new ++ flat_map (λ c, c :: new) s
  | _ :: _ => replace_scan old new 0 s
  end.

(** The scan of [s.split(sep)] for a non-empty [sep]; [cur] holds the
    current field, reversed. *)
Fixpoint split_scan (sep : str) (skip : nat) (cur : str) (s : str) : list str :=
  match s with
  | [] => [reverse cur]
  | c :: s' =>
      match skip with
      | S k => split_scan sep k cur s'
      | O =>
          if startswith sep s
          then reverse cur :: split_scan sep (length sep - 1) [] s'
          else split_scan sep 0 (c :: cur) s'
      end
  end.

(** [os.path.basename] (posixpath): what follows the last slash. *)
Fixpoint basename (p : str) : str :=
  match p with
  | [] => []
  | _ :: p' => if existsb (N.eqb 47) p then basename p' else p
  end.

End PyStr.
Export PyStr.

(** ** Exceptions and results *)

Inductive exn_class :=
  | TypeError | AttributeError | ValueError | IndexError | EOFError
  | UnknownValueError | RequestError | LangDetectException | OtherException.

(** An instance of (a subclass of) [Exception]; [exn_str] is [str(e)].
    [KeyboardInterrupt] and [SystemExit] are not [Exception]s and are not
    modelled. *)
Record exn := mkExn { exn_cls : exn_class; exn_str : str }.

Inductive result (A : Type) :=
  | Ok (a : A)
  | Raise (e : exn).
Arguments Ok {A} a.
Arguments Raise {A} e.

#[global] Instance exn_class_eq_dec : EqDecision exn_class.
Proof. solve_decision. Defined.

#[global] Instance result_ret : MRet result := λ A a, Ok a.
#[global] Instance result_bind : MBind result := λ A B k r,
  match r with
  | Ok a => k a
  | Raise e => Raise e
  end.

(** [s.split(sep)]: [ValueError] on an empty separator. *)
Definition split (sep s : str) : result (list str) :=
  match sep with
  | [] => Raise (mkExn ValueError (u "empty separator"))
  | _ :: _ => Ok (split_scan sep 0 [] s)
  end.

(** [l[-1]]: [IndexError] on an empty list. *)
Definition getitem_last {A} (l : list A) : result A :=
  match last l with
  | Some x => Ok x
  | None => Raise (mkExn IndexError (u "list index out of range"))
  end.

(** ** State and exceptions: the monad of both programs *)

Definition M (S A : Type) : Type := S → result A * S.

#[global] Instance M_ret {S} : MRet (M S) := λ A a s, (Ok a, s).
#[global] Instance M_bind {S} : MBind (M S) := λ A B k m s,
  match m s with
  | (Ok a, s') => k a s'
  | (Raise e, s') => (Raise e, s')
  end.

Definition lift {S A} (r : result A) : M S A := λ s, (r, s).

(** [try: m except Exception as e: h e] *)
Definition try_except {S A} (m : M S A) (h : exn → M S A) : M S A := λ s,
  match m s with
  | (Ok a, s') => (Ok a, s')
  | (Raise e, s') => h e s'
  end.

(** ** JSON values, as [request.get_json()] and [jsonify] see them *)

Inductive json :=
  | JNull
  | JBool (b : bool)
  | JInt (n : Z)
  | JFloat (f : spec_float)
  | JStr (s : str)
  | JArr (l : list json)
  | JObj (m : gmap str json).

(** Python truth value of a decoded JSON value ([not v] is its negation). *)
Definition truthy (v : json) : bool :=
  match v with
  | JNull => false
  | JBool b => b
  | JInt n => negb (n =? 0)%Z
  | JFloat (S754_zero _) => false
  | JFloat _ => true
  | JStr s => negb (bool_decide (s = []))
  | JArr l => negb (bool_decide (l = []))
  | JObj m => negb (bool_decide (m = ∅))
  end.

Definition type_name (v : json) : str :=
  match v with
  | JNull => u "NoneType"
  | JBool _ => u "bool"
  | JInt _ => u "int"
  | JFloat _ => u "float"
  | JStr _ => u "str"
  | JArr _ => u "list"
  | JObj _ => u "dict"
  end.

(** [data.get(key)]: only a dict has the method; a missing key gives [None]. *)
Definition py_get (data : json) (key : str) : result json :=
  match data with
  | JObj m => Ok (default JNull (m !! key))
  | _ => Raise (mkExn AttributeError
                  (u "'" ++ type_name data ++ u "' object has no attribute 'get'"))
  end.

(** The two marker tokens. *)
Definition lang_ml : str := u "[lang:ml]".
Definition lang_en : str := u "[lang:en]".

(** A page of an opened PDF: [page.extract_text()] raises, or returns [None]
    or a string.  [pdfplumber.open] raises or gives the pages. *)
Abbreviation page := (result (option str)).
Abbreviation pdf := (list page).

(** ** app.py: the web endpoint *)

Module Web.

Definition PDF_FILENAME : str := u "pop2016.pdf".

(** [pdf_context] is the module's global; [stdout] collects what [print]
    wrote, [sent] the arguments of every [model.generate_content] call, and
    [world] stands for everything outside the process. *)
Record state {W : Type} := mkState {
  pdf_context : str;
  stdout : list str;
  sent : list (str * Q);
  world : W
}.
Arguments state W : clear implicits.
Arguments mkState {W} _ _ _ _.

Section App.
Context {W : Type}.
(** [pdfplumber.open(path)], with the outcome of each page's
    [extract_text()]. *)
Variable pdfplumber_open : str → W → result pdf * W.
(** [os.path.exists] *)
Variable path_exists : str → W → bool.
(** [model.generate_content(prompt, temperature).text] *)
Variable generate_content : str → Q → W → result str * W.
(** [str(v)] for a JSON value that is not a string. *)
Variable py_str : json → str.

Definition print (line : str) : M (state W) () := λ s,
  (Ok (), mkState (pdf_context s) (stdout s ++ [line]) (sent s) (world s)).

Definition get_pdf_context : M (state W) str := λ s, (Ok (pdf_context s), s).

Definition set_pdf_context (v : str) : M (state W) () := λ s,
  (Ok (), mkState v (stdout s) (sent s) (world s)).

Definition call {A} (f : W → result A * W) : M (state W) A := λ s,
  let '(r, w) := f (world s) in
  (r, mkState (pdf_context s) (stdout s) (sent s) w).

Definition model_generate_content (prompt : str) (temperature : Q)
  : M (state W) str := λ s,
  let '(r, w) := generate_content prompt temperature (world s) in
  (r, mkState (pdf_context s) (stdout s) (sent s ++ [(prompt, temperature)]) w).

(** The loop [for page in pdf.pages] of [extract_text_from_pdf]. *)
Fixpoint read_pages (pages : pdf) (full_text : str) : result str :=
  match pages with
  | [] => Ok full_text
  | Raise e :: _ => Raise e
  | Ok text :: rest =>
      match text with
      | Some (c :: t) => read_pages rest (full_text ++ (c :: t) ++ [nl])
      | Some [] | None => read_pages rest full_text
      end
  end.

Definition extract_text_from_pdf (pdf_path : str) : M (state W) (option str) :=
  try_except
    (pages ← call (pdfplumber_open pdf_path);
     full_text ← lift (read_pages pages []);
     mret (Some full_text))
    (λ e,
     print (u "Error reading " ++ pdf_path ++ u ": " ++ exn_str e);;
     mret None).

Definition load_initial_context : M (state W) () := λ s,
  if negb (path_exists PDF_FILENAME (world s)) then
    (print (u "FATAL ERROR: The file '" ++ PDF_FILENAME
            ++ u "' was not found in the same directory.");;
     set_pdf_context (u "Error: Could not find the knowledge document '"
                      ++ PDF_FILENAME ++ u "'.")) s
  else
    (print (u "Loading knowledge base from '" ++ PDF_FILENAME ++ u "'...");;
     context ← extract_text_from_pdf PDF_FILENAME;
     match context with
     | Some (c :: t) =>
         set_pdf_context (c :: t);;
         print (u "Knowledge base loaded successfully.")
     | Some [] | None =>
         set_pdf_context (u "Error: The provided PDF could not be read or is empty.");;
         print (u "Error processing " ++ PDF_FILENAME
                ++ u ". The bot may not have context.")
     end) s.

Definition system_prompt : str :=
  u "You are 'Krishi Sakhi', a friendly and knowledgeable AI farming assistant for farmers in Kerala, India."
  ++ [nl] ++ u "- Your purpose is to answer farming-related questions."
  ++ [nl] ++ u "- Analyze the user's query to determine if it is in English or Malayalam. Your final response MUST be in the same language."
  ++ [nl] ++ u "- After your main answer, add a language tag on a new line, like this: [lang:ml] for Malayalam or [lang:en] for English. This tag is for the application and should not be spoken."
  ++ [nl] ++ u "- Prioritize using the information from the 'CONTEXT FROM DOCUMENTS' section to answer."
  ++ [nl] ++ u "- If the documents don't have the answer, use your general knowledge."
  ++ [nl] ++ u "- Keep your answers clear, concise, and easy for a farmer to understand.".

(** [f"{v}"] *)
Definition format (v : json) : str :=
  match v with
  | JStr s => s
  | _ => py_str v
  end.

Definition full_prompt (user_query : json) (context : str) : str :=
  u "CONTEXT FROM DOCUMENTS:" ++ [nl] ++ u "---" ++ [nl] ++ context ++ [nl]
  ++ u "---" ++ [nl] ++ [nl] ++ u "FARMER'S QUERY:" ++ [nl] ++ format user_query.

Definition apology : str :=
  u "Sorry, I am having trouble connecting to my brain right now. Please try again later. [lang:en]".

(** [system_prompt] is bound in the source and then not used: the call
    receives [full_prompt] alone. *)
Definition get_gemini_response (user_query : json) (context : str)
  : M (state W) str :=
  try_except
    (model_generate_content (full_prompt user_query context) (3 # 10))
    (λ e,
     print (u "An error occurred with the Gemini API: " ++ exn_str e);;
     mret apology).

(** [bot_response_text.strip().split('\n')[-1]] *)
Definition lang_match (bot_response_text : str) : result str :=
  parts ← split [nl] (strip bot_response_text);
  getitem_last parts.

(** Lines 102-111 of [chat]: the reply split into text and language. *)
Definition parse_response (bot_response_text : str) : result (str * str) :=
  line ← lang_match bot_response_text;
  if contains lang_ml line then
    mret (strip (replace lang_ml [] bot_response_text), u "ml")
  else if contains lang_en line then
    mret (strip (replace lang_en [] bot_response_text), u "en")
  else
    mret (bot_response_text, u "en").

(** The handler of [POST /chat], from the decoded body to
    [(jsonify(...), status)]. *)
Definition chat (data : json) : M (state W) (gmap str json * Z) :=
  user_query ← lift (py_get data (u "query"));
  if negb (truthy user_query) then
    mret ({[ u "error" := JStr (u "No query provided") ]}, 400%Z)
  else
    context ← get_pdf_context;
    bot_response_text ← get_gemini_response user_query context;
    parsed ← lift (parse_response bot_response_text);
    mret ({[ u "response" := JStr parsed.1; u "lang" := JStr parsed.2 ]}, 200%Z).

(** The server after start-up: one handler run per request, in order. *)
Fixpoint serve (requests : list json) (s : state W) : state W :=
  match requests with
  | [] => s
  | data :: rest => serve rest (chat data s).2
  end.

End App.

(** A computation that never writes [pdf_context]. *)
Definition keeps_context {W A} (m : M (state W) A) : Prop :=
  ∀ s, pdf_context (m s).2 = pdf_context s.

End Web.

(** ** chatbot.py: the terminal assistant *)

Module Terminal.

(** [knowledge_context] is the variable of [main] that holds the extracted
    text; [spoken] collects what [playsound] played, as (text, language). *)
Record state {W : Type} := mkState {
  knowledge_context : str;
  stdout : list str;
  sent : list (str * Q);
  spoken : list (str * str);
  world : W
}.
Arguments state W : clear implicits.
Arguments mkState {W} _ _ _ _ _.

Inductive control := Continue | Break.

Section Chatbot.
Context {W audio : Type}.
Variable pdfplumber_open : str → W → result pdf * W.
Variable path_exists : str → W → bool.
Variable generate_content : str → Q → W → result str * W.
(** [str.lower] (Unicode case mapping). *)
Variable lower : str → str.
(** Opening [sr.Microphone()], and [r.listen(source)] after the ambient
    noise adjustment. *)
Variable microphone : W → result () * W.
Variable listen : W → result audio * W.
(** [r.recognize_google(audio, language=...)] *)
Variable recognize_google : audio → str → W → result str * W.
(** [langdetect.detect] *)
Variable detect : str → W → result str * W.
(** [gTTS(text, lang).save(file)] and [playsound(file)] *)
Variable gtts_save : str → str → W → result () * W.
Variable playsound : W → result () * W.

Definition print (line : str) : M (state W) () := λ s,
  (Ok (), mkState (knowledge_context s) (stdout s ++ [line]) (sent s)
            (spoken s) (world s)).

Definition get_knowledge_context : M (state W) str := λ s,
  (Ok (knowledge_context s), s).

Definition set_knowledge_context (v : str) : M (state W) () := λ s,
  (Ok (), mkState v (stdout s) (sent s) (spoken s) (world s)).

Definition call {A} (f : W → result A * W) : M (state W) A := λ s,
  let '(r, w) := f (world s) in
  (r, mkState (knowledge_context s) (stdout s) (sent s) (spoken s) w).

Definition model_generate_content (prompt : str) (temperature : Q)
  : M (state W) str := λ s,
  let '(r, w) := generate_content prompt temperature (world s) in
  (r, mkState (knowledge_context s) (stdout s)
        (sent s ++ [(prompt, temperature)]) (spoken s) w).

Definition play (text lang : str) : M (state W) () := λ s,
  let '(r, w) := playsound (world s) in
  (r, mkState (knowledge_context s) (stdout s) (sent s)
        (match r with Ok _ => spoken s ++ [(text, lang)] | Raise _ => spoken s end) w).

(** [None + "\n"] *)
Definition none_plus_str : exn :=
  mkExn TypeError (u "unsupported operand type(s) for +: 'NoneType' and 'str'").

(** The loop [for page in pdf.pages]: [full_text] grows page by page, and
    keeps what it has when a page raises. *)
Fixpoint read_pages (pages : pdf) (full_text : str) : str * option exn :=
  match pages with
  | [] => (full_text, None)
  | Raise e :: _ => (full_text, Some e)
  | Ok None :: _ => (full_text, Some none_plus_str)
  | Ok (Some text) :: rest => read_pages rest (full_text ++ text ++ [nl])
  end.

(** One round of [for path in pdf_paths]. *)
Definition read_path (path : str) (full_text : str) : M (state W) str := λ s,
  let could_not e :=
    print (u "  - Could not read " ++ basename path ++ u ": " ++ exn_str e) in
  match call (pdfplumber_open path) s with
  | (Raise e, s') => (could_not e;; mret full_text) s'
  | (Ok pages, s') =>
      match read_pages pages full_text with
      | (full_text', None) =>
          (print (u "  - Successfully processed " ++ basename path);;
           mret full_text') s'
      | (full_text', Some e) => (could_not e;; mret full_text') s'
      end
  end.

Fixpoint read_paths (pdf_paths : list str) (full_text : str) : M (state W) str :=
  match pdf_paths with
  | [] => mret full_text
  | path :: rest =>
      full_text' ← read_path path full_text;
      read_paths rest full_text'
  end.

Definition extract_text_from_pdfs (pdf_paths : list str) : M (state W) str :=
  print (u "Extracting text from PDF documents...");;
  full_text ← read_paths pdf_paths [];
  print (u "Extraction complete." ++ [nl]);;
  mret full_text.

Definition listen_for_input : M (state W) (option (str * str)) :=
  call microphone;;
  print ([nl] ++ u "Listening... (Speak now)");;
  sound ← call listen;
  try_except
    (print (u "Recognizing (as Malayalam)...");;
     query ← call (recognize_google sound (u "ml-IN"));
     print (u "Heard (ml): " ++ query);;
     mret (Some (query, u "ml")))
    (λ e,
     match exn_cls e with
     | UnknownValueError =>
         try_except
           (print (u "Recognizing (as English)...");;
            query ← call (recognize_google sound (u "en-IN"));
            print (u "Heard (en): " ++ query);;
            mret (Some (query, u "en")))
           (λ e',
            match exn_cls e' with
            | UnknownValueError =>
                print (u "Sorry, I could not understand the audio.");;
                mret None
            | _ => lift (Raise e')
            end)
     | RequestError =>
         print (u "Could not request results from Google Speech Recognition service; "
                ++ exn_str e);;
         mret None
     | _ =>
         print (u "An unknown error occurred during speech recognition: "
                ++ exn_str e);;
         mret None
     end).

Definition speak_response (text lang : str) : M (state W) () :=
  let line := u "Krishi Sakhi (" ++ lang ++ u "): " ++ text in
  try_except
    (call (gtts_save text lang);;
     print line;;
     play text lang)
    (λ e,
     print ([nl] ++ u "Error in text-to-speech or playback: " ++ exn_str e);;
     print line).

Definition system_prompt : str :=
  u "You are 'Agro AI', a friendly and knowledgeable AI farming assistant for farmers in Kerala, India. Your purpose is to answer farming-related questions."
  ++ [nl]
  ++ [nl] ++ u "    Follow these rules carefully:"
  ++ [nl] ++ u "    1.  Analyze the user's query to determine if it is in English or Malayalam. Your final response MUST be in the same language."
  ++ [nl] ++ u "    2.  Prioritize using the information from the 'CONTEXT FROM DOCUMENTS' section to answer the question, as this is specific to the user."
  ++ [nl] ++ u "    3.  If the documents do not contain the answer, you should use your general knowledge to provide the most helpful and accurate response possible."
  ++ [nl] ++ u "    4.  When using general knowledge, you can optionally state that the specific information wasn't in the uploaded documents."
  ++ [nl] ++ u "    5.  Keep your answers clear, concise, and easy for a farmer to understand."
  ++ [nl] ++ u "    ".

Definition full_prompt (user_query context : str) : str :=
  u "CONTEXT FROM DOCUMENTS:" ++ [nl] ++ u "---" ++ [nl] ++ context ++ [nl]
  ++ u "---" ++ [nl] ++ [nl] ++ u "FARMER'S QUERY:" ++ [nl] ++ user_query.

Definition combined_prompt (user_query context : str) : str :=
  system_prompt ++ [nl] ++ [nl] ++ full_prompt user_query context.

Definition apology : str :=
  u "Sorry, I am having trouble connecting to my brain right now. Please try again later.".

Definition get_gemini_response (user_query context : str) : M (state W) str :=
  try_except
    (print (u "Thinking...");;
     model_generate_content (combined_prompt user_query context) (2 # 10))
    (λ e,
     print (u "An error occurred with the Gemini API: " ++ exn_str e);;
     mret apology).

(** Step 1 of [main]: [input] reads the next line of [lines]; at the end
    of input it raises [EOFError]. *)
Fixpoint collect_pdf_files (lines : list str) (pdf_files : list str)
  : M (state W) (list str * list str) :=
  match lines with
  | [] => lift (Raise (mkExn EOFError (u "EOF when reading a line")))
  | line :: rest =>
      let path := strip line in
      if bool_decide (lower path = u "done") then
        match pdf_files with
        | [] =>
            print (u "No PDF files were provided. The chatbot needs at least one to work.");;
            collect_pdf_files rest pdf_files
        | _ :: _ => mret (pdf_files, rest)
        end
      else λ s,
        if path_exists path (world s)
           && startswith (reverse (u ".pdf")) (reverse (lower path))
        then collect_pdf_files rest (pdf_files ++ [path]) s
        else (print (u "Invalid file path or not a PDF. Please try again.");;
              collect_pdf_files rest pdf_files) s
  end.

(** The body of the conversation loop, after [input] returned [line]. *)
Definition turn (line : str) : M (state W) control :=
  let user_input := lower (strip line) in
  if bool_decide (user_input = u "exit") then mret Break
  else
    let respond (query lang : str) : M (state W) control :=
      context ← get_knowledge_context;
      bot_response ← get_gemini_response query context;
      speak_response bot_response lang;;
      mret Continue in
    if bool_decide (user_input = u "speak") then
      heard ← listen_for_input;
      match heard with
      | Some (c :: q, lang) => respond (c :: q) lang
      | Some ([], _) | None => mret Continue
      end
    else
      lang ← try_except
               (detected_lang ← call (detect user_input);
                mret (if bool_decide (detected_lang = u "ml")
                      then u "ml" else u "en"))
               (λ e,
                match exn_cls e with
                | LangDetectException => mret (u "en")
                | _ => lift (Raise e)
                end);
      respond user_input lang.

(** Step 3 of [main]: [while True], one line of input per round. *)
Fixpoint conversation (lines : list str) : M (state W) () :=
  match lines with
  | [] => lift (Raise (mkExn EOFError (u "EOF when reading a line")))
  | line :: rest =>
      c ← turn line;
      match c with
      | Break => mret ()
      | Continue => conversation rest
      end
  end.

Definition main (lines : list str) : M (state W) () :=
  print (repeat 61%N 50);;
  print (u "      " ++ [127793%N] ++ u " Welcome to Agro AI! " ++ [127793%N]);;
  print (repeat 61%N 50);;
  print (u "Please provide the paths to your agricultural PDF files.");;
  print (u "Enter the full path for each file and press Enter. Type 'done' when you are finished.");;
  collected ← collect_pdf_files lines [];
  text ← extract_text_from_pdfs collected.1;
  set_knowledge_context text;;
  match strip text with
  | [] => print (u "Could not extract any text from the provided PDFs. Exiting.")
  | _ :: _ =>
      print (u "You can now start chatting with Krishi Sakhi.");;
      print (u "Type your message or say 'speak' to use your voice.");;
      print (u "Type 'exit' to end the conversation.");;
      conversation collected.2;;
      print ([nl] ++ u "Thank you for using Agro AI. Have a great day! " ++ [127793%N])
  end.

End Chatbot.

(** A computation that never rebinds [knowledge_context]. *)
Definition keeps_knowledge {W A} (m : M (state W) A) : Prop :=
  ∀ s, knowledge_context (m s).2 = knowledge_context s.

End Terminal.

(** ** Vocabulary of the statements *)

(** White space only. *)
Definition blank (w : str) : Prop := Forall (λ c, isspace c = true) w.

(** [Erased tok s s']: [s'] is [s] without the occurrences of [tok], found
    left to right without overlap. *)
Inductive Erased (tok : str) : str → str → Prop :=
  | Erased_nil : Erased tok [] []
  | Erased_hit s s' : Erased tok s s' → Erased tok (tok ++ s) s'
  | Erased_keep c s s' :
      ¬ tok `prefix_of` (c :: s) → Erased tok s s' → Erased tok (c :: s) (c :: s').

(** [Trimmed s t]: [t] is [s] without its leading and trailing white space. *)
Definition Trimmed (s t : str) : Prop :=
  ∃ w1 w2, s = w1 ++ t ++ w2 ∧ blank w1 ∧ blank w2
           ∧ (∀ c, head t = Some c → isspace c = false)
           ∧ (∀ c, last t = Some c → isspace c = false).

(** The final line of a reply, white space around the reply set aside: what
    follows the last newline of the trimmed reply. *)
Definition final_line (t line : str) : Prop :=
  ∃ pre, strip t = pre ++ line ∧ (nl ∉ line) ∧ (pre = [] ∨ last pre = Some nl).

(** No occurrence of [old] begins in [x] and ends in [y]. *)
Definition no_straddle (old x y : str) : Prop :=
  ∀ t1 t2, old = t1 ++ t2 → t1 ≠ [] → t2 ≠ [] →
           t1 `suffix_of` x → t2 `prefix_of` y → False.

(** Stand-ins for the outside world, for the examples. *)
Module Sample.

Definition replies (r : result str) : str → Q → () → result str * () :=
  λ _ _ w, (r, w).

Definition py_str (v : json) : str := type_name v.

Definition quota : exn := mkExn OtherException (u "429 quota exceeded").

(** Two documents: in [guide.pdf] the second page has no text;
    [notes.pdf] reads well; nothing else exists. *)
Definition guide : pdf := [Ok (Some (u "Sowing")); Ok None; Ok (Some (u "Harvest"))].
Definition notes : pdf := [Ok (Some (u "Soil"))].

Definition pdfplumber_open (path : str) (w : ()) : result pdf * () :=
  if bool_decide (path = u "docs/guide.pdf") then (Ok guide, w)
  else if bool_decide (path = u "docs/notes.pdf") then (Ok notes, w)
  else (Raise (mkExn OtherException (u "No such file")), w).

Definition web : Web.state () := Web.mkState (u "Rice needs standing water.") [] [] ().

Definition terminal : Terminal.state () :=
  Terminal.mkState (u "Rice needs standing water.") [] [] [] ().

End Sample.

(** The answer of the conversation loop to one query (the last three
    statements of its body): ask the model with the knowledge context,
    speak the reply, go on. *)
Definition respond {W} (generate_content : str → Q → W → result str * W)
    (gtts_save : str → str → W → result () * W)
    (playsound : W → result () * W) (query lang : str)
  : M (Terminal.state W) Terminal.control :=
  context ← Terminal.get_knowledge_context;
  bot_response ← Terminal.get_gemini_response generate_content query context;
  Terminal.speak_response gtts_save playsound bot_response lang;;
  mret Terminal.Continue.

(** More stand-ins for the outside world. *)
Module Stub.

(** Lower case of the ASCII letters. *)
Definition lower (s : str) : str :=
  map (λ c, if (65 <=? c)%N && (c <=? 90)%N then (c + 32)%N else c) s.

Definition path_exists (path : str) (w : ()) : bool := true.

(** Every file opens and has the same two pages, the second without text. *)
Definition open_rice (path : str) (w : ()) : result pdf * () :=
  (Ok (map Ok [Some (u "Rice"); None]), w).

Definition doc (path : str) : list str := [u "Soil"; u "Water"].

Definition open_doc (path : str) (w : ()) : result pdf * () :=
  (Ok (map (λ x, Ok (Some x)) (doc path)), w).

Definition microphone (w : ()) : result () * () := (Ok (), w).
Definition listen (w : ()) : result () * () := (Ok (), w).

Definition unknown_value : exn := mkExn UnknownValueError [].
Definition request_error : exn := mkExn RequestError (u "recognition connection failed").

(** Malayalam is not understood and the fallback cannot reach the service. *)
Definition recognize_offline (sound : ()) (language : str) (w : ())
  : result str * () :=
  if bool_decide (language = u "ml-IN") then (Raise unknown_value, w)
  else (Raise request_error, w).

Definition recognize_ml (sound : ()) (language : str) (w : ()) : result str * () :=
  (Ok (u "vellam"), w).

Definition detect_en (text : str) (w : ()) : result str * () := (Ok (u "en"), w).

Definition detect_broken (text : str) (w : ()) : result str * () :=
  (Raise (mkExn OtherException (u "profiles not loaded")), w).

Definition gtts_save (text lang : str) (w : ()) : result () * () := (Ok (), w).
Definition playsound (w : ()) : result () * () := (Ok (), w).

End Stub.

(** * Proofs *)

(** ** Facts about Python strings *)

Lemma startswith_prefix (p s : str) : startswith p s = true ↔ p `prefix_of` s.
Proof.
  revert s. induction p as [|a p IH]; intros [|b s]; simpl.
  - split; [intros _; apply prefix_nil | done].
  - split; [intros _; apply prefix_nil | done].
  - split; [done | intros [k Hk]; discriminate].
  - rewrite andb_true_iff, N.eqb_eq, IH. split.
    + intros [-> Hp]. by apply prefix_cons.
    + intros [k Hk]. injection Hk as -> ->. split; [done | by exists k].
Qed.

Lemma startswith_app (p s : str) : startswith p (p ++ s) = true.
Proof. apply startswith_prefix. by exists s. Qed.

Lemma contains_spec (sub s : str) :
  contains sub s = true ↔ ∃ a b, s = a ++ sub ++ b.
Proof.
  induction s as [|c s IH]; simpl.
  - rewrite orb_false_r, startswith_prefix. split.
    + intros [k Hk]. by exists [], k.
    + intros (a & b & H). symmetry in H.
      apply app_eq_nil in H as [-> H]. apply app_eq_nil in H as [-> _].
      apply prefix_nil.
  - rewrite orb_true_iff, startswith_prefix, IH. split.
    + intros [[k Hk] | (a & b & ->)]; [by exists [], k | by exists (c :: a), b].
    + intros ([|d a] & b & H); simpl in H.
      * left. by exists b.
      * right. injection H as -> ->. by exists a, b.
Qed.

Lemma replace_scan_skip (old new a s : str) :
  replace_scan old new (length a) (a ++ s) = replace_scan old new 0 s.
Proof. induction a as [|c a IH]; [done | apply IH]. Qed.

Lemma replace_nil (old new : str) : old ≠ [] → replace old new [] = [].
Proof. by destruct old. Qed.

Lemma replace_hit (old new s : str) :
  old ≠ [] → replace old new (old ++ s) = new ++ replace old new s.
Proof.
  destruct old as [|c old]; [done | intros _].
  unfold replace. change ((c :: old) ++ s) with (c :: (old ++ s)).
  cbn [replace_scan]. change (c :: old ++ s) with ((c :: old) ++ s).
  rewrite startswith_app.
  replace (length (c :: old) - 1) with (length old) by (simpl; lia).
  by rewrite replace_scan_skip.
Qed.

Lemma replace_miss (old new : str) (c : N) (s : str) :
  startswith old (c :: s) = false →
  replace old new (c :: s) = c :: replace old new s.
Proof.
  destruct old as [|d old]; [done | intros H].
  unfold replace. cbn [replace_scan]. by rewrite H.
Qed.

Lemma replace_app (old new x y : str) :
  old ≠ [] → no_straddle old x y →
  replace old new (x ++ y) = replace old new x ++ replace old new y.
Proof.
  intros Hold. remember (length x) as n eqn:Hn.
  revert x Hn. induction n as [n IH] using lt_wf_ind. intros x -> Hns.
  destruct x as [|c x]; [by rewrite replace_nil |].
  destruct (startswith old ((c :: x) ++ y)) eqn:Hsw.
  - apply startswith_prefix in Hsw as [k Hk].
    symmetry in Hk. apply app_eq_inv in Hk as [(k' & Hold' & Hy) | (k' & Hx & Hk)].
    + destruct k' as [|d k'].
      * rewrite app_nil_r in Hold'. simpl in Hy. subst k. rewrite <-Hold'.
        pose proof (replace_hit old new [] Hold) as H1.
        rewrite app_nil_r, replace_nil in H1 by done.
        by rewrite replace_hit, H1, app_nil_r.
      * exfalso. apply (Hns (c :: x) (d :: k')); try done.
        by exists k.
    + rewrite Hx, <-app_assoc, !replace_hit by done.
      rewrite (IH (length k')); [by rewrite app_assoc | | done |].
      * rewrite Hx, length_app. destruct old; [done | simpl; lia].
      * intros t1 t2 Ht Ht1 Ht2 Hs Hp. apply (Hns t1 t2); try done.
        rewrite Hx. by apply suffix_app_r.
  - assert (startswith old (c :: x) = false) as Hsw'.
    { destruct (startswith old (c :: x)) eqn:E; [|done].
      apply startswith_prefix in E. rewrite <-Hsw. symmetry.
      apply startswith_prefix. by apply prefix_app_r. }
    change ((c :: x) ++ y) with (c :: (x ++ y)) in *.
    rewrite !replace_miss by done. simpl. f_equal.
    apply (IH (length x)); [simpl; lia | done |].
    intros t1 t2 Ht Ht1 Ht2 Hs Hp. apply (Hns t1 t2); try done.
    by apply suffix_cons_r.
Qed.

Lemma replace_absent (old new s : str) :
  contains old s = false → replace old new s = s.
Proof.
  induction s as [|c s IH]; simpl; intros H.
  - destruct old; [done | done].
  - apply orb_false_iff in H as [H1 H2].
    rewrite replace_miss by done. by rewrite IH.
Qed.

Lemma replace_Erased (tok s : str) : tok ≠ [] → Erased tok s (replace tok [] s).
Proof.
  intros Htok. remember (length s) as n eqn:Hn. revert s Hn.
  induction n as [n IH] using lt_wf_ind. intros [|c s] ->.
  - rewrite replace_nil by done. constructor.
  - destruct (startswith tok (c :: s)) eqn:Hsw.
    + apply startswith_prefix in Hsw as [k Hk]. rewrite Hk.
      rewrite replace_hit by done. simpl. constructor.
      apply (IH (length k)); [|done].
      rewrite Hk, length_app. destruct tok; [done | simpl; lia].
    + rewrite replace_miss by done. constructor.
      * intros Hp. apply startswith_prefix in Hp. congruence.
      * apply (IH (length s)); [simpl; lia | done].
Qed.

Lemma Erased_replace (tok s s' : str) :
  tok ≠ [] → Erased tok s s' → s' = replace tok [] s.
Proof.
  intros Htok. induction 1 as [|s s' _ IH|c s s' Hp _ IH].
  - by rewrite replace_nil.
  - by rewrite replace_hit.
  - rewrite replace_miss, <-IH; [done |].
    destruct (startswith tok (c :: s)) eqn:E; [|done].
    by apply startswith_prefix in E.
Qed.

Lemma Erased_sublist (tok s s' : str) : Erased tok s s' → s' `sublist_of` s.
Proof.
  induction 1 as [|s s' _ IH|c s s' _ _ IH].
  - constructor.
  - by apply sublist_inserts_l.
  - by apply sublist_skip.
Qed.

(** *** White space *)

Lemma lstrip_split (s : str) : ∃ w, s = w ++ lstrip s ∧ blank w.
Proof.
  induction s as [|c s (w & Hw & Hb)]; simpl.
  - exists []. split; [done | constructor].
  - destruct (isspace c) eqn:Hc.
    + exists (c :: w). split; [by rewrite Hw at 1 | by constructor].
    + exists []. split; [done | constructor].
Qed.

Lemma lstrip_head (s : str) (c : N) : head (lstrip s) = Some c → isspace c = false.
Proof.
  induction s as [|d s IH]; simpl; [done |].
  destruct (isspace d) eqn:Hd; [done |]. simpl. by intros [= <-].
Qed.

Lemma lstrip_blank_app (w s : str) : blank w → lstrip (w ++ s) = lstrip s.
Proof. induction 1 as [|c w Hc _ IH]; simpl; [done | by rewrite Hc]. Qed.

Lemma lstrip_blank (w : str) : blank w → lstrip w = [].
Proof. intros H. rewrite <-(app_nil_r w). by rewrite lstrip_blank_app. Qed.

Lemma lstrip_nonspace_app (a r : str) (c : N) :
  isspace c = false → lstrip (a ++ c :: r) = lstrip a ++ c :: r.
Proof.
  intros Hc. induction a as [|d a IH]; simpl.
  - by rewrite Hc.
  - by destruct (isspace d).
Qed.

Lemma blank_reverse (w : str) : blank w → blank (reverse w).
Proof. apply Forall_reverse. Qed.

Lemma rstrip_split (s : str) : ∃ w, s = rstrip s ++ w ∧ blank w.
Proof.
  unfold rstrip. destruct (lstrip_split (reverse s)) as (w & Hw & Hb).
  exists (reverse w). split; [| by apply blank_reverse].
  rewrite <-reverse_app, <-Hw. by rewrite reverse_involutive.
Qed.

Lemma rstrip_blank_app (s w : str) : blank w → rstrip (s ++ w) = rstrip s.
Proof.
  intros H. unfold rstrip. rewrite reverse_app.
  by rewrite lstrip_blank_app by by apply blank_reverse.
Qed.

Lemma rstrip_nonspace_app (a r : str) (c : N) :
  isspace c = false → rstrip (a ++ c :: r) = a ++ c :: rstrip r.
Proof.
  intros Hc. unfold rstrip. rewrite reverse_app, reverse_cons, <-app_assoc.
  simpl. rewrite lstrip_nonspace_app by done.
  rewrite reverse_app, reverse_cons, reverse_involutive.
  by rewrite <-app_assoc.
Qed.

Lemma rstrip_cons_nonspace (r : str) (c : N) :
  isspace c = false → rstrip (c :: r) = c :: rstrip r.
Proof. apply (rstrip_nonspace_app [] r c). Qed.

Lemma rstrip_last (s : str) (c : N) : last (rstrip s) = Some c → isspace c = false.
Proof.
  unfold rstrip. rewrite last_reverse. apply lstrip_head.
Qed.

Lemma strip_split (s : str) :
  ∃ w1 w2, s = w1 ++ strip s ++ w2 ∧ blank w1 ∧ blank w2.
Proof.
  destruct (lstrip_split s) as (w1 & H1 & Hb1).
  destruct (rstrip_split (lstrip s)) as (w2 & H2 & Hb2).
  exists w1, w2. unfold strip. by rewrite <-H2.
Qed.

Lemma strip_head (s : str) (c : N) : head (strip s) = Some c → isspace c = false.
Proof.
  unfold strip. destruct (lstrip s) as [|d r] eqn:E; [done |].
  assert (isspace d = false) as Hd by (apply (lstrip_head s); by rewrite E).
  rewrite rstrip_cons_nonspace by done. simpl. by intros [= <-].
Qed.

Lemma strip_last (s : str) (c : N) : last (strip s) = Some c → isspace c = false.
Proof. apply rstrip_last. Qed.

Lemma strip_Trimmed (s : str) : Trimmed s (strip s).
Proof.
  destruct (strip_split s) as (w1 & w2 & H & Hb1 & Hb2).
  exists w1, w2. split_and!; try done.
  - apply strip_head.
  - apply strip_last.
Qed.

Lemma Trimmed_strip (s t : str) : Trimmed s t → t = strip s.
Proof.
  intros (w1 & w2 & -> & Hb1 & Hb2 & Hh & Hl). unfold strip.
  rewrite lstrip_blank_app by done.
  destruct t as [|c r]; simpl.
  - rewrite lstrip_blank by done. done.
  - rewrite (Hh c) by done.
    change (c :: r ++ w2) with ((c :: r) ++ w2). rewrite rstrip_blank_app by done.
    destruct (exists_last (l:=c :: r)) as (r' & d & E); [done |].
    rewrite E. rewrite E in Hl.
    assert (isspace d = false) as Hd by (apply Hl; by rewrite last_snoc).
    by rewrite (rstrip_nonspace_app r' [] d Hd).
Qed.

Lemma strip_sublist (s : str) : strip s `sublist_of` s.
Proof.
  destruct (strip_split s) as (w1 & w2 & H & _). rewrite H at 2.
  apply sublist_inserts_l, sublist_inserts_r. done.
Qed.

Lemma strip_app_blank (s w : str) : blank w → strip (s ++ w) = strip s.
Proof.
  intros Hw. symmetry. apply Trimmed_strip.
  destruct (strip_Trimmed s) as (w1 & w2 & H & Hb1 & Hb2 & Hh & Hl).
  exists w1, (w2 ++ w). split_and!; try done.
  - rewrite H at 1. by rewrite <-!app_assoc.
  - by apply Forall_app.
Qed.

Lemma rstrip_id (s : str) (d : N) :
  last s = Some d → isspace d = false → rstrip s = s.
Proof.
  intros Hl Hd. destruct (exists_last (l:=s)) as (r & d' & ->).
  { by intros ->. }
  rewrite last_snoc in Hl. injection Hl as ->.
  rewrite rstrip_nonspace_app by done. done.
Qed.

Lemma lstrip_suffix (s : str) : lstrip s `suffix_of` s.
Proof. destruct (lstrip_split s) as (w & H & _). by exists w. Qed.

Lemma lstrip_app_suffix (x b : str) : lstrip b `suffix_of` lstrip (x ++ b).
Proof.
  induction x as [|c x IH]; simpl; [done |].
  destruct (isspace c); [done |].
  apply suffix_cons_r, suffix_app_r, lstrip_suffix.
Qed.

(** *** Occurrences that cannot overlap *)

Lemma bracket_no_straddle (c : N) (r x w : str) :
  c ∉ r → no_straddle (c :: r) x (c :: w).
Proof.
  intros Hc t1 t2 Ht Ht1 Ht2 _ [k Hk].
  destruct t2 as [|d t2]; [done |]. injection Hk as <- _.
  destruct t1 as [|e t1]; [done |]. injection Ht as _ ->.
  apply Hc. set_solver.
Qed.

Lemma blank_no_straddle (tok x w : str) (d : N) :
  last tok = Some d → isspace d = false → blank w → no_straddle tok x w.
Proof.
  intros Hl Hd Hw t1 t2 -> _ Ht2 _ [k ->].
  rewrite last_app in Hl. destruct (last t2) as [d'|] eqn:E.
  - injection Hl as ->. apply last_Some_elem_of in E.
    apply Forall_app in Hw as [Hw _].
    rewrite Forall_forall in Hw. specialize (Hw d E). congruence.
  - by apply last_None in E.
Qed.

Lemma contains_blank (tok w : str) (d : N) :
  last tok = Some d → isspace d = false → blank w → contains tok w = false.
Proof.
  intros Hl Hd Hw. destruct (contains tok w) eqn:E; [|done].
  apply contains_spec in E as (a & b & ->).
  apply Forall_app in Hw as [_ Hw]. apply Forall_app in Hw as [Hw _].
  apply last_Some_elem_of in Hl. rewrite Forall_forall in Hw.
  specialize (Hw d Hl). congruence.
Qed.

(** *** The last line *)

Lemma split_scan_last (c : N) (cur s : str) :
  c ∉ cur →
  ∃ pre line, last (split_scan [c] 0 cur s) = Some line
              ∧ reverse cur ++ s = pre ++ line ∧ (c ∉ line)
              ∧ (pre = [] ∨ last pre = Some c).
Proof.
  revert cur. induction s as [|d s IH]; intros cur Hcur.
  - exists [], (reverse cur). simpl. rewrite app_nil_r.
    split_and!; [done | done | by rewrite elem_of_reverse | by left].
  - cbn [split_scan startswith length Nat.sub]. rewrite andb_true_r.
    destruct (N.eqb_spec c d) as [<- | Hne].
    + destruct (IH []) as (pre & line & Hlast & Hs & Hline & Hpre); [set_solver |].
      exists (reverse cur ++ c :: pre), line.
      rewrite last_cons, Hlast. simpl in Hs. rewrite Hs.
      split_and!; [done | by rewrite <-app_assoc | done |].
      right. rewrite last_app_cons, last_cons.
      destruct Hpre as [-> | Hpre]; [done | by rewrite Hpre].
    + destruct (IH (d :: cur)) as (pre & line & Hlast & Hs & Hline & Hpre).
      { rewrite elem_of_cons. by intros [? | ?]. }
      exists pre, line. rewrite reverse_cons, <-app_assoc in Hs. done.
Qed.

Lemma lang_match_final_line (t : str) :
  ∃ line, Web.lang_match t = Ok line ∧ final_line t line.
Proof.
  destruct (split_scan_last nl [] (strip t)) as (pre & line & Hlast & Hs & Hline & Hpre).
  { set_solver. }
  exists line. split; [| by exists pre].
  unfold Web.lang_match, split. simpl. unfold getitem_last. by rewrite Hlast.
Qed.

Lemma final_line_unique (t l1 l2 : str) :
  final_line t l1 → final_line t l2 → l1 = l2.
Proof.
  assert (∀ p1 p2 k l1 l2 : str,
            p1 = p2 ++ k → l2 = k ++ l1 → nl ∉ l2 →
            (p1 = [] ∨ last p1 = Some nl) → l1 = l2) as Haux.
  { intros p1 p2 k m1 m2 -> -> Hnl Hp. destruct k as [|c k]; [done | exfalso].
    destruct Hp as [Hnil | Hp]; [by destruct p2 |].
    rewrite last_app_cons in Hp. apply last_Some_elem_of in Hp.
    apply Hnl, elem_of_app. by left. }
  intros (p1 & H1 & Hn1 & Hp1) (p2 & H2 & Hn2 & Hp2).
  rewrite H1 in H2. apply app_eq_inv in H2 as [(k & ? & ?) | (k & ? & ?)].
  - by apply (Haux p1 p2 k).
  - symmetry. by apply (Haux p2 p1 k).
Qed.

Lemma lang_match_iff (t line : str) :
  Web.lang_match t = Ok line ↔ final_line t line.
Proof.
  destruct (lang_match_final_line t) as (line' & Hm & Hf). split.
  - intros H. rewrite Hm in H. by injection H as ->.
  - intros H. by rewrite (final_line_unique t line line').
Qed.

(** *** The marker tokens *)

Lemma marker_shape (tok : str) :
  tok = lang_ml ∨ tok = lang_en →
  ∃ r, tok = 91%N :: r ∧ (91%N ∉ r) ∧ last tok = Some 93%N.
Proof.
  intros [-> | ->]; eexists; (split; [reflexivity |]); (split; [| reflexivity]);
    compute_done.
Qed.

Lemma replace_marker_app (tok new x y : str) :
  tok = lang_ml ∨ tok = lang_en →
  replace tok new (x ++ tok ++ y) = replace tok new x ++ new ++ replace tok new y.
Proof.
  intros Htok. destruct (marker_shape tok Htok) as (r & Hr & Hnotin & _).
  assert (tok ≠ []) as Hne by (by rewrite Hr).
  rewrite replace_app, replace_hit; [done | done | done |].
  rewrite Hr. simpl. by apply bracket_no_straddle.
Qed.

Lemma replace_marker_blank (tok new s w : str) :
  tok = lang_ml ∨ tok = lang_en → blank w →
  replace tok new (s ++ w) = replace tok new s ++ w.
Proof.
  intros Htok Hw. destruct (marker_shape tok Htok) as (r & Hr & _ & Hlast).
  rewrite replace_app.
  - by rewrite (replace_absent _ _ w) by by eapply contains_blank.
  - by rewrite Hr.
  - by eapply blank_no_straddle.
Qed.

Lemma replace_ml_keeps_en (new x y : str) :
  replace lang_ml new (x ++ lang_en ++ y)
  = replace lang_ml new x ++ lang_en ++ replace lang_ml new y.
Proof.
  rewrite replace_app; [| done |].
  - reflexivity.
  - apply (bracket_no_straddle 91%N (u "lang:ml]") x (u "lang:en]" ++ y)).
    compute_done.
Qed.

Lemma strip_around_en (a b : str) :
  strip (a ++ lang_en ++ b) = lstrip a ++ lang_en ++ rstrip b.
Proof.
  unfold strip.
  change (a ++ lang_en ++ b) with (a ++ 91%N :: (u "lang:en" ++ 93%N :: b)).
  rewrite lstrip_nonspace_app by reflexivity.
  replace (lstrip a ++ 91%N :: u "lang:en" ++ 93%N :: b)
    with ((lstrip a ++ u "[lang:en") ++ 93%N :: b)
    by (by rewrite <-app_assoc).
  rewrite rstrip_nonspace_app by reflexivity. by rewrite <-app_assoc.
Qed.

(** *** The post-processor *)


Lemma erase_trim (tok s : str) :
  tok ≠ [] →
  Erased tok s (replace tok [] s)
  ∧ Trimmed (replace tok [] s) (strip (replace tok [] s))
  ∧ strip (replace tok [] s) `sublist_of` s.
Proof.
  intros Htok. split_and!.
  - by apply replace_Erased.
  - apply strip_Trimmed.
  - etrans; [apply strip_sublist |]. by eapply Erased_sublist, replace_Erased.
Qed.

Lemma parse_response_ml (reply line : str) :
  final_line reply line → contains lang_ml line = true →
  Web.parse_response reply = Ok (strip (replace lang_ml [] reply), u "ml").
Proof.
  intros Hf Hml. apply lang_match_iff in Hf.
  unfold Web.parse_response. rewrite Hf. simpl. by rewrite Hml.
Qed.

Lemma parse_response_en (reply line : str) :
  final_line reply line →
  contains lang_ml line = false → contains lang_en line = true →
  Web.parse_response reply = Ok (strip (replace lang_en [] reply), u "en").
Proof.
  intros Hf Hml Hen. apply lang_match_iff in Hf.
  unfold Web.parse_response. rewrite Hf. simpl. by rewrite Hml, Hen.
Qed.

(** C4 (amended): when the final line of a reply contains [[lang:ml]], the
    post-processor returns language [ml] and the reply with every
    occurrence of exactly that token erased and the surrounding white space
    trimmed; when it contains [[lang:en]] and not [[lang:ml]], the same
    with [en] and the English token. *)
Theorem parse_response_marker (reply line : str) :
  final_line reply line →
  (contains lang_ml line = true →
   ∃ mid text, Web.parse_response reply = Ok (text, u "ml")
     ∧ text = strip (replace lang_ml [] reply)
     ∧ Erased lang_ml reply mid ∧ Trimmed mid text ∧ text `sublist_of` reply)
  ∧ (contains lang_ml line = false → contains lang_en line = true →
     ∃ mid text, Web.parse_response reply = Ok (text, u "en")
       ∧ text = strip (replace lang_en [] reply)
       ∧ Erased lang_en reply mid ∧ Trimmed mid text ∧ text `sublist_of` reply).
Proof.
  intros Hf. split.
  - intros Hml. eexists _, _. split; [by eapply parse_response_ml |].
    split; [done |]. by apply erase_trim.
  - intros Hml Hen. eexists _, _. split; [by eapply parse_response_en |].
    split; [done |]. by apply erase_trim.
Qed.

Lemma parse_response_marker_witness :
  (∃ mid text,
     Web.parse_response (u "Namaskaram" ++ [nl] ++ u "[lang:ml]" ++ [nl])
       = Ok (text, u "ml")
     ∧ text = strip (replace lang_ml []
                       (u "Namaskaram" ++ [nl] ++ u "[lang:ml]" ++ [nl]))
     ∧ Erased lang_ml (u "Namaskaram" ++ [nl] ++ u "[lang:ml]" ++ [nl]) mid
     ∧ Trimmed mid text
     ∧ text `sublist_of` (u "Namaskaram" ++ [nl] ++ u "[lang:ml]" ++ [nl]))
  ∧ (∃ mid text,
       Web.parse_response (u "Hi there [lang:en]") = Ok (text, u "en")
       ∧ text = strip (replace lang_en [] (u "Hi there [lang:en]"))
       ∧ Erased lang_en (u "Hi there [lang:en]") mid ∧ Trimmed mid text
       ∧ text `sublist_of` u "Hi there [lang:en]").
Proof.
  split.
  - apply (parse_response_marker
             (u "Namaskaram" ++ [nl] ++ u "[lang:ml]" ++ [nl]) (u "[lang:ml]")).
    + exists (u "Namaskaram" ++ [nl]).
      split; [reflexivity |]. split; [compute_done | right; reflexivity].
    + reflexivity.
  - apply (parse_response_marker (u "Hi there [lang:en]") (u "Hi there [lang:en]")).
    + exists []. split; [reflexivity |]. split; [compute_done | by left].
    + reflexivity.
    + reflexivity.
Defined.

(** C4, as stated, fails when both tokens are on the final line: the line
    contains [[lang:en]], yet the language is [ml] and the English token
    stays. *)
Lemma parse_response_en_not_symmetric :
  final_line (u "[lang:ml] [lang:en]") (u "[lang:ml] [lang:en]")
  ∧ contains lang_en (u "[lang:ml] [lang:en]") = true
  ∧ Web.parse_response (u "[lang:ml] [lang:en]") = Ok (u "[lang:en]", u "ml").
Proof.
  split; [| split; reflexivity].
  exists []. split; [reflexivity |]. split; [compute_done | by left].
Qed.

(** C6: when the final line contains neither token, the language is [en]
    and the text is the reply itself, untrimmed. *)
Theorem parse_response_no_marker (reply line : str) :
  final_line reply line →
  contains lang_ml line = false → contains lang_en line = false →
  Web.parse_response reply = Ok (reply, u "en").
Proof.
  intros Hf Hml Hen. apply lang_match_iff in Hf.
  unfold Web.parse_response. rewrite Hf. simpl. by rewrite Hml, Hen.
Qed.

Lemma parse_response_no_marker_witness :
  Web.parse_response (u "  Plant after the first rain. " ++ [nl])
  = Ok (u "  Plant after the first rain. " ++ [nl], u "en").
Proof.
  apply (parse_response_no_marker _ (u "Plant after the first rain.")).
  - exists []. split; [reflexivity |]. split; [compute_done | by left].
  - reflexivity.
  - reflexivity.
Defined.

(** C9: with both tokens on the final line the language is [ml]; the text
    is the reply with the occurrences of [[lang:ml]] erased, then trimmed,
    and every occurrence of [[lang:en]] in the reply is still there. *)
Theorem parse_response_both_markers (reply line : str) :
  final_line reply line →
  contains lang_ml line = true → contains lang_en line = true →
  ∃ mid text, Web.parse_response reply = Ok (text, u "ml")
    ∧ Erased lang_ml reply mid ∧ Trimmed mid text
    ∧ ∀ x y, reply = x ++ lang_en ++ y →
             text = lstrip (replace lang_ml [] x) ++ lang_en
                    ++ rstrip (replace lang_ml [] y).
Proof.
  intros Hf Hml _. eexists _, _. split; [by eapply parse_response_ml |].
  destruct (erase_trim lang_ml reply) as (He & Ht & _); [done |].
  split_and!; [done | done |].
  intros x y ->. by rewrite replace_ml_keeps_en, strip_around_en.
Qed.

Lemma parse_response_both_markers_witness :
  ∃ mid text,
    Web.parse_response (u "ok [lang:en] [lang:ml]") = Ok (text, u "ml")
    ∧ Erased lang_ml (u "ok [lang:en] [lang:ml]") mid ∧ Trimmed mid text
    ∧ ∀ x y, u "ok [lang:en] [lang:ml]" = x ++ lang_en ++ y →
             text = lstrip (replace lang_ml [] x) ++ lang_en
                    ++ rstrip (replace lang_ml [] y).
Proof.
  apply (parse_response_both_markers _ (u "ok [lang:en] [lang:ml]")).
  - exists []. split; [reflexivity |]. split; [compute_done | by left].
  - reflexivity.
  - reflexivity.
Defined.

Lemma strip_keeps_tail (x b : str) (d : N) :
  last b = Some d → isspace d = false → strip (x ++ b) = lstrip (x ++ b).
Proof.
  intros Hl Hd. unfold strip. apply (rstrip_id _ d); [| done].
  destruct (exists_last (l:=b)) as (b' & d' & ->); [by intros -> |].
  rewrite last_snoc in Hl. injection Hl as ->.
  rewrite app_assoc, lstrip_nonspace_app by done. apply last_snoc.
Qed.

Lemma lstrip_keeps_tail (x b : str) (c : N) :
  c ∈ x → isspace c = false → b `suffix_of` lstrip (x ++ b).
Proof.
  intros Hc Hs. apply list_elem_of_split in Hc as (x1 & x2 & ->).
  rewrite <-app_assoc. simpl. rewrite lstrip_nonspace_app by done.
  exists (lstrip x1 ++ c :: x2). by rewrite <-app_assoc.
Qed.

(** C5 (amended): a marker on the final line with other content around it
    still selects its language, and only the token is erased: what follows
    it stays in the text.  The trim of the whole text comes after, so when
    the text begins with that trailing content its leading white space is
    trimmed. *)
Theorem parse_response_trailing (reply a b tok lang : str) :
  final_line reply (a ++ tok ++ b) →
  (tok = lang_ml ∧ lang = u "ml")
  ∨ (tok = lang_en ∧ lang = u "en" ∧ contains lang_ml (a ++ tok ++ b) = false) →
  contains tok b = false →
  ∃ front w text,
    reply = front ++ tok ++ b ++ w ∧ blank w
    ∧ Web.parse_response reply = Ok (text, lang)
    ∧ text = strip (replace tok [] front ++ b)
    ∧ lstrip b `suffix_of` text
    ∧ ((∃ c, c ∈ replace tok [] front ∧ isspace c = false) → b `suffix_of` text).
Proof.
  intros Hf Htok Hb.
  assert (tok = lang_ml ∨ tok = lang_en) as Hmarker by tauto.
  assert (contains tok (a ++ tok ++ b) = true) as Hin
    by (apply contains_spec; by exists a, b).
  assert (Web.parse_response reply = Ok (strip (replace tok [] reply), lang)) as Hparse.
  { destruct Htok as [[-> ->] | (-> & -> & Hml)].
    - by eapply parse_response_ml.
    - by eapply parse_response_en. }
  destruct Hf as (pre & Hstrip & _).
  destruct (strip_split reply) as (w1 & w & Hreply & _ & Hw).
  assert (reply = (w1 ++ pre ++ a) ++ tok ++ b ++ w) as Hshape.
  { rewrite Hreply at 1. rewrite Hstrip. by rewrite <-!app_assoc. }
  set (front := w1 ++ pre ++ a) in *.
  assert (strip (replace tok [] reply) = strip (replace tok [] front ++ b)) as Htext.
  { rewrite Hshape at 1.
    rewrite replace_marker_app, replace_marker_blank by done.
    rewrite (replace_absent tok [] b) by done. simpl.
    by rewrite app_assoc, strip_app_blank. }
  exists front, w, (strip (replace tok [] front ++ b)).
  split_and!; [done | done | by rewrite Hparse, Htext | done | |].
  - destruct (last b) as [d|] eqn:Hlast.
    + rewrite (strip_keeps_tail _ b d); [apply lstrip_app_suffix | done |].
      apply (strip_last reply). by rewrite Hstrip, !last_app, Hlast.
    + apply last_None in Hlast as ->. apply suffix_nil.
  - intros (c & Hc & Hs). destruct (last b) as [d|] eqn:Hlast.
    + rewrite (strip_keeps_tail _ b d); [by eapply lstrip_keeps_tail | done |].
      apply (strip_last reply). by rewrite Hstrip, !last_app, Hlast.
    + apply last_None in Hlast as ->. apply suffix_nil.
Qed.

Lemma parse_response_trailing_witness :
  ∃ front w text,
    u "Water daily." ++ [nl] ++ u "[lang:en] thanks" ++ [nl]
      = front ++ lang_en ++ u " thanks" ++ w
    ∧ blank w
    ∧ Web.parse_response (u "Water daily." ++ [nl] ++ u "[lang:en] thanks" ++ [nl])
      = Ok (text, u "en")
    ∧ text = strip (replace lang_en [] front ++ u " thanks")
    ∧ lstrip (u " thanks") `suffix_of` text
    ∧ ((∃ c, c ∈ replace lang_en [] front ∧ isspace c = false) →
       u " thanks" `suffix_of` text).
Proof.
  apply (parse_response_trailing
           (u "Water daily." ++ [nl] ++ u "[lang:en] thanks" ++ [nl])
           [] (u " thanks") lang_en (u "en")).
  - exists (u "Water daily." ++ [nl]).
    split; [reflexivity |]. split; [compute_done | right; reflexivity].
  - right. split; [reflexivity |]. split; reflexivity.
  - reflexivity.
Defined.

(** C5, as stated, fails when nothing but the token precedes the trailing
    content: the final trim removes the space that followed the token. *)
Lemma parse_response_trailing_trimmed :
  final_line (u "[lang:en] x") ([] ++ lang_en ++ u " x")
  ∧ Web.parse_response (u "[lang:en] x") = Ok (u "x", u "en")
  ∧ ¬ u " x" `suffix_of` u "x".
Proof.
  split_and!.
  - exists []. split; [reflexivity |]. split; [compute_done | by left].
  - reflexivity.
  - intros [k Hk]. apply (f_equal length) in Hk. rewrite length_app in Hk.
    simpl in Hk. lia.
Qed.

(** ** The web handler *)

Section WebHandler.
Context {W : Type}.
Variable generate_content : str → Q → W → result str * W.
Variable py_str : json → str.

Lemma keeps_ret {A} (a : A) : Web.keeps_context (W:=W) (mret a).
Proof. done. Qed.

Lemma keeps_lift {A} (r : result A) : Web.keeps_context (W:=W) (lift r).
Proof. done. Qed.

Lemma keeps_bind {A B} (m : M (Web.state W) A) (k : A → M (Web.state W) B) :
  Web.keeps_context (W:=W) m → (∀ a, Web.keeps_context (W:=W) (k a)) → Web.keeps_context (W:=W) (m ≫= k).
Proof.
  intros Hm Hk s. unfold mbind, M_bind. specialize (Hm s).
  destruct (m s) as [[a | e] s']; simpl in *; [| done].
  by rewrite Hk.
Qed.

Lemma keeps_try {A} (m : M (Web.state W) A) (h : exn → M (Web.state W) A) :
  Web.keeps_context (W:=W) m → (∀ e, Web.keeps_context (W:=W) (h e)) → Web.keeps_context (W:=W) (try_except m h).
Proof.
  intros Hm Hh s. unfold try_except. specialize (Hm s).
  destruct (m s) as [[a | e] s']; simpl in *; [done |].
  by rewrite Hh.
Qed.

Lemma keeps_print (line : str) : Web.keeps_context (W:=W) (Web.print line).
Proof. done. Qed.

Lemma keeps_get : Web.keeps_context (W:=W) Web.get_pdf_context.
Proof. done. Qed.

Lemma keeps_generate (prompt : str) (t : Q) :
  Web.keeps_context (W:=W) (Web.model_generate_content generate_content prompt t).
Proof.
  intros s. unfold Web.model_generate_content.
  by destruct (generate_content prompt t (Web.world s)).
Qed.

Lemma keeps_get_gemini_response (q : json) (ctx : str) :
  Web.keeps_context (W:=W) (Web.get_gemini_response generate_content py_str q ctx).
Proof.
  apply keeps_try; [apply keeps_generate |].
  intros e. apply keeps_bind; [apply keeps_print | intros; apply keeps_ret].
Qed.

Lemma keeps_chat (data : json) :
  Web.keeps_context (W:=W) (Web.chat generate_content py_str data).
Proof.
  apply keeps_bind; [apply keeps_lift |]. intros q.
  destruct (negb (truthy q)); [apply keeps_ret |].
  apply keeps_bind; [apply keeps_get |]. intros ctx.
  apply keeps_bind; [apply keeps_get_gemini_response |]. intros t.
  apply keeps_bind; [apply keeps_lift |]. intros p. apply keeps_ret.
Qed.

Lemma serve_keeps_context (requests : list json) (s : Web.state W) :
  Web.pdf_context (Web.serve generate_content py_str requests s)
  = Web.pdf_context s.
Proof.
  revert s. induction requests as [|data rest IH]; intros s; [done |].
  simpl. by rewrite IH, keeps_chat.
Qed.

(** The adapter always returns a string, after exactly one call of the
    model with [full_prompt]. *)
Lemma get_gemini_response_returns (q : json) (ctx : str) (s : Web.state W) :
  ∃ text s',
    Web.get_gemini_response generate_content py_str q ctx s = (Ok text, s')
    ∧ Web.sent s' = Web.sent s ++ [(Web.full_prompt py_str q ctx, 3 # 10)].
Proof.
  unfold Web.get_gemini_response, try_except, Web.model_generate_content.
  destruct (generate_content _ _ (Web.world s)) as [[text | e] w]; by eauto.
Qed.

Lemma chat_rejects (m : gmap str json) (s : Web.state W) :
  truthy (default JNull (m !! u "query")) = false →
  Web.chat generate_content py_str (JObj m) s
  = (Ok ({[ u "error" := JStr (u "No query provided") ]}, 400%Z), s).
Proof.
  intros H. unfold Web.chat, mbind, M_bind, lift, py_get.
  by rewrite H.
Qed.


(** C10: a [query] that is present but falsy (the empty string, [null],
    zero, [false], an empty list or object) is answered like a missing
    one: status 400 and the [error] payload, nothing else done. *)
Theorem chat_falsy_query (m : gmap str json) (v : json) (s : Web.state W) :
  m !! u "query" = Some v → truthy v = false →
  Web.chat generate_content py_str (JObj m) s
  = (Ok ({[ u "error" := JStr (u "No query provided") ]}, 400%Z), s).
Proof. intros Hv Ht. apply chat_rejects. by rewrite Hv. Qed.

End WebHandler.

(** ** The terminal assistant *)

Section TerminalLoop.
Context {W audio : Type}.
Variable pdfplumber_open : str → W → result pdf * W.
Variable generate_content : str → Q → W → result str * W.
Variable lower : str → str.
Variable microphone : W → result () * W.
Variable listen : W → result audio * W.
Variable recognize_google : audio → str → W → result str * W.
Variable detect : str → W → result str * W.
Variable gtts_save : str → str → W → result () * W.
Variable playsound : W → result () * W.

Lemma kk_ret {A} (a : A) : Terminal.keeps_knowledge (W:=W) (mret a).
Proof. done. Qed.

Lemma kk_lift {A} (r : result A) : Terminal.keeps_knowledge (W:=W) (lift r).
Proof. done. Qed.

Lemma kk_bind {A B} (m : M (Terminal.state W) A) (k : A → M (Terminal.state W) B) :
  Terminal.keeps_knowledge (W:=W) m → (∀ a, Terminal.keeps_knowledge (W:=W) (k a)) → Terminal.keeps_knowledge (W:=W) (m ≫= k).
Proof.
  intros Hm Hk s. unfold mbind, M_bind. specialize (Hm s).
  destruct (m s) as [[a | e] s']; simpl in *; [| done].
  by rewrite Hk.
Qed.

Lemma kk_try {A} (m : M (Terminal.state W) A) (h : exn → M (Terminal.state W) A) :
  Terminal.keeps_knowledge (W:=W) m → (∀ e, Terminal.keeps_knowledge (W:=W) (h e)) →
  Terminal.keeps_knowledge (W:=W) (try_except m h).
Proof.
  intros Hm Hh s. unfold try_except. specialize (Hm s).
  destruct (m s) as [[a | e] s']; simpl in *; [done |].
  by rewrite Hh.
Qed.

Lemma kk_print (line : str) : Terminal.keeps_knowledge (W:=W) (Terminal.print line).
Proof. done. Qed.

Lemma kk_get : Terminal.keeps_knowledge (W:=W) Terminal.get_knowledge_context.
Proof. done. Qed.

Lemma kk_call {A} (f : W → result A * W) : Terminal.keeps_knowledge (W:=W) (Terminal.call f).
Proof. intros s. unfold Terminal.call. by destruct (f (Terminal.world s)). Qed.

Lemma kk_generate (prompt : str) (t : Q) :
  Terminal.keeps_knowledge (W:=W) (Terminal.model_generate_content generate_content prompt t).
Proof.
  intros s. unfold Terminal.model_generate_content.
  by destruct (generate_content prompt t (Terminal.world s)).
Qed.

Lemma kk_play (text lang : str) : Terminal.keeps_knowledge (W:=W) (Terminal.play playsound text lang).
Proof.
  intros s. unfold Terminal.play. by destruct (playsound (Terminal.world s)).
Qed.

Create HintDb kk.
#[local] Hint Resolve kk_ret kk_lift kk_print kk_get kk_call kk_generate kk_play : kk.

Ltac kk_step :=
  first [ apply kk_bind; [| intros ?] | apply kk_try; [| intros ?] | solve [auto with kk] ].

Lemma kk_get_gemini_response (q ctx : str) :
  Terminal.keeps_knowledge (W:=W) (Terminal.get_gemini_response generate_content q ctx).
Proof. unfold Terminal.get_gemini_response. repeat kk_step. Qed.

Lemma kk_speak_response (text lang : str) :
  Terminal.keeps_knowledge (W:=W) (Terminal.speak_response gtts_save playsound text lang).
Proof. unfold Terminal.speak_response. repeat kk_step. Qed.

Lemma kk_listen_for_input :
  Terminal.keeps_knowledge (W:=W) (Terminal.listen_for_input microphone listen recognize_google).
Proof.
  unfold Terminal.listen_for_input. repeat kk_step.
  destruct (exn_cls _); repeat kk_step.
  destruct (exn_cls _); repeat kk_step.
Qed.

#[local] Hint Resolve kk_get_gemini_response kk_speak_response kk_listen_for_input : kk.

Lemma kk_turn (line : str) :
  Terminal.keeps_knowledge (W:=W)
    (Terminal.turn generate_content lower microphone listen recognize_google
       detect gtts_save playsound line).
Proof.
  unfold Terminal.turn. case_bool_decide; [apply kk_ret |].
  case_bool_decide.
  - kk_step; [auto with kk |].
    destruct a as [[[|c q] lang] |]; repeat kk_step.
  - kk_step; [| repeat kk_step].
    kk_step; [repeat kk_step |].
    destruct (exn_cls _); repeat kk_step.
Qed.

Lemma kk_conversation (lines : list str) :
  Terminal.keeps_knowledge (W:=W)
    (Terminal.conversation generate_content lower microphone listen
       recognize_google detect gtts_save playsound lines).
Proof.
  induction lines as [|line rest IH]; simpl; [apply kk_lift |].
  apply kk_bind; [apply kk_turn |]. intros [|]; [done | apply kk_ret].
Qed.

(** *** The document loader *)

Lemma read_pages_prefix (pages : pdf) (t : str) :
  t `prefix_of` (Terminal.read_pages pages t).1.
Proof.
  revert t. induction pages as [|[[text |] | e] rest IH]; intros t; simpl; try done.
  etrans; [| apply IH]. by apply prefix_app_r.
Qed.

Lemma read_pages_all_text (texts : list str) (t : str) :
  Terminal.read_pages (map (λ x, Ok (Some x)) texts) t
  = (t ++ concat (map (λ x, x ++ [nl]) texts), None).
Proof.
  revert t. induction texts as [|x texts IH]; intros t; simpl.
  - by rewrite app_nil_r.
  - by rewrite IH, <-!app_assoc.
Qed.

(** One file, readable or not, adds one report and never ends the batch. *)
Lemma read_path_reports (path t : str) (s : Terminal.state W) :
  ∃ t' line s',
    Terminal.read_path pdfplumber_open path t s = (Ok t', s')
    ∧ t `prefix_of` t'
    ∧ Terminal.stdout s' = Terminal.stdout s ++ [line]
    ∧ (line = u "  - Successfully processed " ++ basename path
       ∨ ∃ e, line = u "  - Could not read " ++ basename path ++ u ": " ++ exn_str e).
Proof.
  unfold Terminal.read_path, Terminal.call.
  destruct (pdfplumber_open path (Terminal.world s)) as [[pages | e] w].
  - pose proof (read_pages_prefix pages t) as Hp.
    destruct (Terminal.read_pages pages t) as [t' [e |]]; simpl in *.
    + eexists _, _, _. split_and!; [done | done | done | right; by exists e].
    + eexists _, _, _. split_and!; [done | done | done | by left].
  - eexists _, _, _. split_and!; [done | done | done | right; by exists e].
Qed.

Lemma read_paths_reports (paths : list str) (t : str) (s : Terminal.state W) :
  ∃ t' lines s',
    Terminal.read_paths pdfplumber_open paths t s = (Ok t', s')
    ∧ t `prefix_of` t'
    ∧ Terminal.stdout s' = Terminal.stdout s ++ lines
    ∧ length lines = length paths.
Proof.
  revert t s. induction paths as [|path rest IH]; intros t s.
  - exists t, [], s. by rewrite app_nil_r.
  - destruct (read_path_reports path t s) as (t1 & line & s1 & H1 & Hp1 & Ho1 & _).
    destruct (IH t1 s1) as (t2 & lines & s2 & H2 & Hp2 & Ho2 & Hlen).
    exists t2, (line :: lines), s2. simpl. unfold mbind, M_bind.
    rewrite H1, H2. split_and!; [done | by etrans | | by rewrite Hlen].
    rewrite Ho2, Ho1. by rewrite <-app_assoc.
Qed.

End TerminalLoop.

Section Claims.
Context {W audio : Type}.
Variable generate_content : str → Q → W → result str * W.
Variable py_str : json → str.
Variable lower : str → str.
Variable microphone : W → result () * W.
Variable listen : W → result audio * W.
Variable recognize_google : audio → str → W → result str * W.
Variable detect : str → W → result str * W.
Variable gtts_save : str → str → W → result () * W.
Variable playsound : W → result () * W.

(** C8: no run of the chat handler, and no round of the terminal loop,
    changes the knowledge context; so it keeps its value over any sequence
    of requests and any conversation. *)
Theorem knowledge_context_read_only :
  (∀ data (s : Web.state W),
     Web.pdf_context (Web.chat generate_content py_str data s).2
     = Web.pdf_context s)
  ∧ (∀ requests (s : Web.state W),
       Web.pdf_context (Web.serve generate_content py_str requests s)
       = Web.pdf_context s)
  ∧ (∀ line (s : Terminal.state W),
       Terminal.knowledge_context
         (Terminal.turn generate_content lower microphone listen
            recognize_google detect gtts_save playsound line s).2
       = Terminal.knowledge_context s)
  ∧ (∀ lines (s : Terminal.state W),
       Terminal.knowledge_context
         (Terminal.conversation generate_content lower microphone listen
            recognize_google detect gtts_save playsound lines s).2
       = Terminal.knowledge_context s).
Proof.
  split_and!.
  - intros data. apply keeps_chat.
  - apply serve_keeps_context.
  - intros line. apply kk_turn.
  - intros lines. apply kk_conversation.
Qed.

(** C1 (amended): in both variants the prompt passed to the model ends
    with the delimited context block, holding the whole knowledge string,
    followed by the query.  In the terminal variant the block comes after
    the fixed system instruction (persona, same-language rule, context
    first, general knowledge as fallback) and a blank line; that
    instruction does not ask for a marker token. *)
Theorem prompt_sent (query context : str) :
  let block :=
    u "CONTEXT FROM DOCUMENTS:" ++ [nl] ++ u "---" ++ [nl] ++ context ++ [nl]
    ++ u "---" ++ [nl; nl] ++ u "FARMER'S QUERY:" ++ [nl] ++ query in
  (∀ s : Web.state W, ∃ front temperature,
     Web.sent (Web.get_gemini_response generate_content py_str
                 (JStr query) context s).2
     = Web.sent s ++ [(front ++ block, temperature)])
  ∧ (∀ s : Terminal.state W,
       Terminal.sent (Terminal.get_gemini_response generate_content
                        query context s).2
       = Terminal.sent s
         ++ [(Terminal.system_prompt ++ [nl; nl] ++ block, 2 # 10)])
  ∧ contains (u "You are 'Agro AI'") Terminal.system_prompt = true
  ∧ contains (u "Your final response MUST be in the same language")
      Terminal.system_prompt = true
  ∧ contains (u "Prioritize using the information from the 'CONTEXT FROM DOCUMENTS' section")
      Terminal.system_prompt = true
  ∧ contains (u "use your general knowledge") Terminal.system_prompt = true
  ∧ contains (u "[lang:") Terminal.system_prompt = false.
Proof.
  intros block. split_and!; try reflexivity.
  - intros s. exists [], (3 # 10).
    destruct (get_gemini_response_returns generate_content py_str
                (JStr query) context s) as (text & s' & Hg & Hs).
    rewrite Hg. simpl. rewrite Hs. reflexivity.
  - intros s.
    change (Terminal.system_prompt ++ [nl; nl] ++ block)
      with (Terminal.combined_prompt query context).
    unfold Terminal.get_gemini_response, try_except, mbind, M_bind,
      Terminal.model_generate_content. simpl.
    by destruct (generate_content _ _ (Terminal.world s)) as [[text | e] w].
Qed.

(** C2 (amended): when the call of the model raises, the adapter of either
    variant reports the error on the console and returns its fixed
    apology instead of raising.  The web apology ends with the marker
    [[lang:en]]; the terminal apology carries no marker. *)
Theorem apology_on_failure (query : json) (typed context : str) (e : exn) :
  (∀ (s : Web.state W) w,
     generate_content (Web.full_prompt py_str query context) (3 # 10) (Web.world s)
     = (Raise e, w) →
     ∃ s', Web.get_gemini_response generate_content py_str query context s
           = (Ok Web.apology, s')
       ∧ Web.stdout s'
         = Web.stdout s ++ [u "An error occurred with the Gemini API: " ++ exn_str e])
  ∧ (∀ (s : Terminal.state W) w,
       generate_content (Terminal.combined_prompt typed context) (2 # 10)
         (Terminal.world s)
       = (Raise e, w) →
       ∃ s', Terminal.get_gemini_response generate_content typed context s
             = (Ok Terminal.apology, s')
         ∧ Terminal.stdout s'
           = Terminal.stdout s
             ++ [u "Thinking...";
                 u "An error occurred with the Gemini API: " ++ exn_str e])
  ∧ lang_en `suffix_of` Web.apology
  ∧ Web.parse_response Web.apology
    = Ok (u "Sorry, I am having trouble connecting to my brain right now. Please try again later.",
          u "en")
  ∧ contains (u "[lang:") Terminal.apology = false.
Proof.
  split_and!; try reflexivity.
  - intros s w H.
    unfold Web.get_gemini_response, try_except, Web.model_generate_content.
    rewrite H. simpl. by eexists.
  - intros s w H.
    unfold Terminal.get_gemini_response, try_except, mbind, M_bind,
      Terminal.model_generate_content. simpl.
    rewrite H. simpl. eexists. split; [done |]. by rewrite <-app_assoc.
  - by exists (u "Sorry, I am having trouble connecting to my brain right now. Please try again later. ").
Qed.

End Claims.

(** C1, as stated, fails in both variants: the web handler passes the
    context block and the query alone, without its system instruction; the
    terminal prompt has a system instruction, but none that asks for a
    marker token. *)
Lemma prompt_sent_without_marker_rule :
  (∃ p t,
     Web.sent (Web.get_gemini_response (Sample.replies (Ok (u "ok")))
                 Sample.py_str (JStr (u "hello")) (u "ctx") Sample.web).2
     = [(p, t)]
     ∧ startswith Web.system_prompt p = false
     ∧ contains (u "[lang:") p = false)
  ∧ (∃ p t,
       Terminal.sent (Terminal.get_gemini_response (Sample.replies (Ok (u "ok")))
                        (u "hello") (u "ctx") Sample.terminal).2
       = [(p, t)]
       ∧ startswith Terminal.system_prompt p = true
       ∧ contains (u "[lang:") p = false).
Proof.
  split; eexists _, _; (split; [reflexivity |]); split; reflexivity.
Qed.

Lemma apology_on_failure_witness :
  (∃ s', Web.get_gemini_response (Sample.replies (Raise Sample.quota))
           Sample.py_str (JStr (u "hello")) (u "ctx") Sample.web
         = (Ok Web.apology, s')
     ∧ Web.stdout s'
       = Web.stdout Sample.web
         ++ [u "An error occurred with the Gemini API: " ++ exn_str Sample.quota])
  ∧ (∃ s', Terminal.get_gemini_response (Sample.replies (Raise Sample.quota))
             (u "hello") (u "ctx") Sample.terminal
           = (Ok Terminal.apology, s')
       ∧ Terminal.stdout s'
         = Terminal.stdout Sample.terminal
           ++ [u "Thinking...";
               u "An error occurred with the Gemini API: " ++ exn_str Sample.quota]).
Proof.
  pose proof (apology_on_failure (Sample.replies (Raise Sample.quota))
                Sample.py_str (JStr (u "hello")) (u "hello") (u "ctx")
                Sample.quota) as (Hweb & Hterm & _).
  split.
  - apply (Hweb Sample.web ()). reflexivity.
  - apply (Hterm Sample.terminal ()). reflexivity.
Defined.

(** C2, as stated, fails in the terminal variant: its apology carries no
    marker token. *)
Lemma terminal_apology_untagged :
  ∃ a, (Terminal.get_gemini_response (Sample.replies (Raise Sample.quota))
          (u "hello") (u "ctx") Sample.terminal).1 = Ok a
       ∧ contains lang_en a = false
       ∧ contains (u "[lang:") a = false.
Proof. eexists. split; [reflexivity |]. split; reflexivity. Qed.



Lemma chat_falsy_query_witness :
  Web.chat (Sample.replies (Ok (u "Hi there [lang:en]"))) Sample.py_str
    (JObj {[ u "query" := JNull ]}) Sample.web
  = (Ok ({[ u "error" := JStr (u "No query provided") ]}, 400%Z), Sample.web).
Proof.
  apply (chat_falsy_query (Sample.replies (Ok (u "Hi there [lang:en]")))
           Sample.py_str {[ u "query" := JNull ]} JNull Sample.web).
  - reflexivity.
  - reflexivity.
Defined.

(** C3 (the loader at a document with a page without text): the terminal
    loader stops reading [guide.pdf] at its second page, reports the file
    as unreadable and loses the third page, where the loader of the web
    variant skips the page and keeps the rest; the next file is still
    read.  An empty page text is not skipped either: it leaves an empty
    line. *)
Theorem extract_text_from_pdfs_page_without_text :
  Terminal.extract_text_from_pdfs Sample.pdfplumber_open
    [u "docs/guide.pdf"; u "docs/notes.pdf"] Sample.terminal
  = (Ok (u "Sowing" ++ [nl] ++ u "Soil" ++ [nl]),
     Terminal.mkState (u "Rice needs standing water.")
       [u "Extracting text from PDF documents...";
        u "  - Could not read guide.pdf: unsupported operand type(s) for +: 'NoneType' and 'str'";
        u "  - Successfully processed notes.pdf";
        u "Extraction complete." ++ [nl]]
       [] [] ())
  ∧ Web.read_pages Sample.guide []
    = Ok (u "Sowing" ++ [nl] ++ u "Harvest" ++ [nl])
  ∧ Terminal.read_pages
      [Ok (Some (u "Sowing")); Ok (Some []); Ok (Some (u "Harvest"))] []
    = (u "Sowing" ++ [nl] ++ [nl] ++ u "Harvest" ++ [nl], None)
  ∧ Web.read_pages
      [Ok (Some (u "Sowing")); Ok (Some []); Ok (Some (u "Harvest"))] []
    = Ok (u "Sowing" ++ [nl] ++ u "Harvest" ++ [nl]).
Proof. split_and!; reflexivity. Qed.

(** * Further properties *)

(** ** The loader of the web variant *)

Lemma web_read_pages_ok (texts : list (option str)) (t : str) :
  Web.read_pages (map Ok texts) t
  = Ok (t ++ concat (map (λ x, x ++ [nl])
                       (filter (λ x, x ≠ []) (omap id texts)))).
Proof.
  revert t. induction texts as [|[x |] texts IH]; intros t.
  - simpl. by rewrite app_nil_r.
  - change (omap id (Some x :: texts)) with (x :: omap id texts).
    destruct x as [|c x]; cbn [Web.read_pages map]; rewrite IH.
    + by rewrite filter_cons_False by (by intros H).
    + rewrite filter_cons_True by done. cbn [map concat].
      by rewrite <-!app_assoc.
  - change (omap id (None :: texts)) with (omap id texts).
    cbn [Web.read_pages map]. by rewrite IH.
Qed.

Lemma web_read_pages_raise (good : list (option str)) (e : exn) (rest : pdf) (t : str) :
  Web.read_pages (map Ok good ++ Raise e :: rest) t = Raise e.
Proof.
  revert t. induction good as [|[[|c x] |] good IH]; intros t; simpl; by rewrite ?IH.
Qed.

Lemma web_read_pages_cases (pages : pdf) (t : str) :
  (∃ texts, pages = map Ok texts)
  ∨ (∃ good e rest, pages = map Ok good ++ Raise e :: rest).
Proof.
  induction pages as [|[o | e] pages [(texts & ->) | (good & e' & rest & ->)]].
  - left. by exists [].
  - left. by exists (o :: texts).
  - right. by exists (o :: good), e', rest.
  - right. by exists [], e, (map Ok texts).
  - right. by exists [], e, (map Ok good ++ Raise e' :: rest).
Qed.

(** X1: the pages loop of the web loader keeps the text of every page that
    has some, each followed by a newline, and passes over pages whose text
    is [None] or empty; the first page that raises ends the loop with that
    exception, and the text read so far is dropped. *)
Theorem web_read_pages_result (pages : pdf) (t : str) :
  (∀ texts, pages = map Ok texts →
     Web.read_pages pages t
     = Ok (t ++ concat (map (λ x, x ++ [nl])
                          (filter (λ x, x ≠ []) (omap id texts)))))
  ∧ (∀ good e rest, pages = map Ok good ++ Raise e :: rest →
       Web.read_pages pages t = Raise e).
Proof.
  split.
  - intros texts ->. apply web_read_pages_ok.
  - intros good e rest ->. apply web_read_pages_raise.
Qed.

Lemma web_read_pages_result_witness :
  Web.read_pages (map Ok [Some (u "a"); None; Some []; Some (u "b")]) (u ">")
  = Ok (u ">" ++ concat (map (λ x, x ++ [nl])
                           (filter (λ x, x ≠ [])
                              (omap id [Some (u "a"); None; Some []; Some (u "b")]))))
  ∧ Web.read_pages (map Ok [Some (u "a")] ++ Raise Sample.quota :: [Ok (Some (u "b"))]) []
    = Raise Sample.quota.
Proof.
  split.
  - apply (proj1 (web_read_pages_result _ (u ">"))). reflexivity.
  - apply (proj2 (web_read_pages_result _ []) [Some (u "a")] Sample.quota
             [Ok (Some (u "b"))]). reflexivity.
Defined.

Section WebLoader.
Context {W : Type}.
Variable pdfplumber_open : str → W → result pdf * W.
Variable path_exists : str → W → bool.

Lemma extract_text_from_pdf_eq (path : str) (s : Web.state W) :
  Web.extract_text_from_pdf pdfplumber_open path s
  = match pdfplumber_open path (Web.world s) with
    | (Ok pages, w) =>
        match Web.read_pages pages [] with
        | Ok text =>
            (Ok (Some text),
             Web.mkState (Web.pdf_context s) (Web.stdout s) (Web.sent s) w)
        | Raise e =>
            (Ok None,
             Web.mkState (Web.pdf_context s)
               (Web.stdout s ++ [u "Error reading " ++ path ++ u ": " ++ exn_str e])
               (Web.sent s) w)
        end
    | (Raise e, w) =>
        (Ok None,
         Web.mkState (Web.pdf_context s)
           (Web.stdout s ++ [u "Error reading " ++ path ++ u ": " ++ exn_str e])
           (Web.sent s) w)
    end.
Proof.
  unfold Web.extract_text_from_pdf, try_except, mbind, M_bind, Web.call, lift.
  destruct (pdfplumber_open path (Web.world s)) as [[pages | e] w]; simpl; [| done].
  by destruct (Web.read_pages pages []).
Qed.

(** X2: [extract_text_from_pdf] never raises.  It returns the text when
    the file opens and every page can be read, and prints nothing then;
    when opening or any page raises it returns [None], whatever was read
    before, and prints one line naming the path and the error.  It leaves
    [pdf_context] alone and calls no model. *)
Theorem extract_text_from_pdf_all_or_nothing (path : str) (s : Web.state W) :
  ∃ r s',
    Web.extract_text_from_pdf pdfplumber_open path s = (Ok r, s')
    ∧ Web.pdf_context s' = Web.pdf_context s
    ∧ Web.sent s' = Web.sent s
    ∧ match r with
      | Some text =>
          Web.stdout s' = Web.stdout s
          ∧ ∃ texts, (pdfplumber_open path (Web.world s)).1 = Ok (map Ok texts)
                     ∧ text = concat (map (λ x, x ++ [nl])
                                        (filter (λ x, x ≠ []) (omap id texts)))
      | None =>
          ∃ e, Web.stdout s'
               = Web.stdout s ++ [u "Error reading " ++ path ++ u ": " ++ exn_str e]
               ∧ ((pdfplumber_open path (Web.world s)).1 = Raise e
                  ∨ ∃ good rest, (pdfplumber_open path (Web.world s)).1
                                 = Ok (map Ok good ++ Raise e :: rest))
      end.
Proof.
  rewrite extract_text_from_pdf_eq.
  destruct (pdfplumber_open path (Web.world s)) as [[pages | e] w]; simpl.
  - destruct (web_read_pages_cases pages []) as [(texts & ->) | (good & e & rest & ->)].
    + rewrite web_read_pages_ok. eexists _, _. split; [reflexivity |].
      simpl. split_and!; try done. by exists texts.
    + rewrite web_read_pages_raise. eexists _, _. split; [reflexivity |].
      simpl. split_and!; try done.
      exists e. split; [done | right; by exists good, rest].
  - eexists _, _. split; [reflexivity |]. simpl. split_and!; try done.
    exists e. by split; [| left].
Qed.

(** X3: [load_initial_context] never raises and never leaves
    [pdf_context] empty: it holds the extracted text or one of the two
    placeholder messages.  It calls no model. *)
Theorem load_initial_context_nonempty (s : Web.state W) :
  ∃ s', Web.load_initial_context pdfplumber_open path_exists s = (Ok (), s')
        ∧ Web.pdf_context s' ≠ []
        ∧ Web.sent s' = Web.sent s.
Proof.
  unfold Web.load_initial_context.
  destruct (path_exists Web.PDF_FILENAME (Web.world s)); simpl.
  - unfold mbind, M_bind. simpl. rewrite extract_text_from_pdf_eq. simpl.
    destruct (pdfplumber_open _ (Web.world s)) as [[pages | e] w]; simpl.
    + destruct (Web.read_pages pages []) as [[|c t] | e]; simpl;
        eexists; (split; [reflexivity |]); split; done.
    + eexists; (split; [reflexivity |]); split; done.
  - eexists; (split; [reflexivity |]); split; done.
Qed.

(** X4: when the knowledge file exists, opens, no page raises and at least
    one page has text, [load_initial_context] sets [pdf_context] to the
    text of the pages that have some, each followed by a newline, and
    prints the two progress lines. *)
Theorem load_initial_context_loaded (texts : list (option str)) (w : W)
    (s : Web.state W) :
  path_exists Web.PDF_FILENAME (Web.world s) = true →
  pdfplumber_open Web.PDF_FILENAME (Web.world s) = (Ok (map Ok texts), w) →
  filter (λ x, x ≠ []) (omap id texts) ≠ [] →
  Web.load_initial_context pdfplumber_open path_exists s
  = (Ok (),
     Web.mkState
       (concat (map (λ x, x ++ [nl]) (filter (λ x, x ≠ []) (omap id texts))))
       (Web.stdout s
        ++ [u "Loading knowledge base from 'pop2016.pdf'...";
            u "Knowledge base loaded successfully."])
       (Web.sent s) w).
Proof.
  intros He Ho. remember (filter (λ x : str, x ≠ []) (omap id texts)) as l eqn:E.
  intros Hne. unfold Web.load_initial_context. rewrite He.
  cbv [negb mbind M_bind Web.print].
  rewrite extract_text_from_pdf_eq.
  cbn [Web.world Web.stdout Web.sent Web.pdf_context].
  rewrite Ho, web_read_pages_ok, <-E.
  destruct l as [|[|c x] l]; [done | |].
  - exfalso. assert ([] ∈ filter (λ x : str, x ≠ []) (omap id texts)) as Hin
      by (rewrite <-E; left).
    apply list_elem_of_filter in Hin as [Hin _]. done.
  - cbv [Web.set_pdf_context Web.print].
    cbn [app concat map Web.world Web.stdout Web.sent Web.pdf_context].
    rewrite <-(app_assoc (Web.stdout s)). reflexivity.
Qed.

End WebLoader.

(** ** The post-processor and the handler *)

Lemma lstrip_last (s : str) : lstrip s = [] ∨ last (lstrip s) = last s.
Proof.
  destruct (lstrip_split s) as (w & Hs & _).
  destruct (lstrip s) as [|c r] eqn:E; [by left | right].
  rewrite Hs. by rewrite last_app_cons.
Qed.

(** X5: the line the handler inspects is well defined for every reply: the
    index [-1] is always in range, and the line is the one and only final
    line of the reply once the white space around the reply is set aside;
    it contains no newline. *)
Theorem lang_match_is_final_line (t : str) :
  ∃ line, Web.lang_match t = Ok line
          ∧ final_line t line
          ∧ (nl ∉ line)
          ∧ (∀ line', final_line t line' → line' = line).
Proof.
  destruct (lang_match_final_line t) as (line & Hm & Hf).
  exists line. split_and!; [done | done | by destruct Hf as (? & ? & ? & ?) |].
  intros line' Hf'. by apply (final_line_unique t).
Qed.

(** X6: a reply in the format the prompt asks for (the answer, a newline,
    the marker, then at most white space) whose answer does not contain the
    marker gives the trimmed answer and the language of the marker. *)
Theorem parse_response_answer_then_marker (body w tok lang : str) :
  (tok = lang_ml ∧ lang = u "ml") ∨ (tok = lang_en ∧ lang = u "en") →
  contains tok body = false → blank w →
  Web.parse_response (body ++ [nl] ++ tok ++ w) = Ok (strip body, lang).
Proof.
  intros Htok Hbody Hw.
  assert (tok = lang_ml ∨ tok = lang_en) as Hmarker by tauto.
  destruct (marker_shape tok Hmarker) as (r & Hr & _ & Hlast).
  assert (blank [nl]) as Hnl by (by repeat constructor).
  assert (final_line (body ++ [nl] ++ tok ++ w) tok) as Hf.
  { exists (lstrip (body ++ [nl])). split_and!.
    - replace (body ++ [nl] ++ tok ++ w) with (((body ++ [nl]) ++ tok) ++ w)
        by (by rewrite <-!app_assoc).
      rewrite strip_app_blank by done.
      rewrite (strip_keeps_tail _ tok 93%N) by done.
      rewrite Hr. by rewrite lstrip_nonspace_app.
    - destruct Hmarker as [-> | ->]; compute_done.
    - destruct (lstrip_last (body ++ [nl])) as [? | Hl]; [by left | right].
      by rewrite Hl, last_snoc. }
  assert (strip (replace tok [] (body ++ [nl] ++ tok ++ w)) = strip body) as Htext.
  { replace (body ++ [nl] ++ tok ++ w) with ((body ++ [nl]) ++ tok ++ w)
      by (by rewrite <-!app_assoc).
    rewrite replace_marker_app by done.
    rewrite (replace_marker_blank tok [] body [nl]) by done.
    rewrite (replace_absent tok [] body) by done.
    rewrite (replace_absent tok [] w) by (by eapply contains_blank).
    simpl. rewrite <-app_assoc. apply strip_app_blank.
    by apply Forall_app. }
  rewrite <-Htext.
  destruct Htok as [[-> ->] | [-> ->]].
  - by apply (parse_response_ml _ lang_ml).
  - by apply (parse_response_en _ lang_en).
Qed.

Lemma parse_response_answer_then_marker_witness :
  Web.parse_response
    ((u " Sow after the first rain." ++ [nl]) ++ [nl] ++ lang_ml ++ [nl; 32%N])
  = Ok (strip (u " Sow after the first rain." ++ [nl]), u "ml").
Proof.
  apply parse_response_answer_then_marker.
  - left. split; reflexivity.
  - reflexivity.
  - repeat constructor.
Defined.

Section WebHandlerMore.
Context {W : Type}.
Variable generate_content : str → Q → W → result str * W.
Variable py_str : json → str.

Lemma chat_accepts_eq (m : gmap str json) (v : json) (s : Web.state W) :
  m !! u "query" = Some v → truthy v = true →
  Web.chat generate_content py_str (JObj m) s
  = match generate_content (Web.full_prompt py_str v (Web.pdf_context s))
            (3 # 10) (Web.world s) with
    | (r, w) =>
        let reply := match r with Ok text => text | Raise _ => Web.apology end in
        let out := match r with
                   | Ok _ => Web.stdout s
                   | Raise e =>
                       Web.stdout s
                       ++ [u "An error occurred with the Gemini API: " ++ exn_str e]
                   end in
        let s' := Web.mkState (Web.pdf_context s) out
                    (Web.sent s
                     ++ [(Web.full_prompt py_str v (Web.pdf_context s), 3 # 10)]) w in
        match Web.parse_response reply with
        | Ok parsed =>
            (Ok ({[ u "response" := JStr parsed.1; u "lang" := JStr parsed.2 ]},
                 200%Z), s')
        | Raise e => (Raise e, s')
        end
    end.
Proof.
  intros Hv Ht.
  unfold Web.chat, mbind, M_bind, lift, py_get, Web.get_pdf_context,
    Web.get_gemini_response, try_except, Web.model_generate_content.
  unfold mbind, M_bind.
  rewrite Hv. cbn [default from_option id]. rewrite Ht. cbn [negb].
  destruct (generate_content _ _ (Web.world s)) as [[text | e] w];
    cbn [Web.print Web.stdout Web.sent Web.pdf_context Web.world mret M_ret].
  - destruct (Web.parse_response text); reflexivity.
  - destruct (Web.parse_response Web.apology); reflexivity.
Qed.

(** X7: when the model call fails on an accepted query, the client still
    gets status 200: the response is the apology without its marker, the
    language is [en], and the error is printed on the console. *)
Theorem chat_model_failure (m : gmap str json) (v : json) (e : exn) (w : W)
    (s : Web.state W) :
  m !! u "query" = Some v → truthy v = true →
  generate_content (Web.full_prompt py_str v (Web.pdf_context s)) (3 # 10)
    (Web.world s) = (Raise e, w) →
  Web.chat generate_content py_str (JObj m) s
  = (Ok ({[ u "response" :=
              JStr (u "Sorry, I am having trouble connecting to my brain right now. Please try again later.");
            u "lang" := JStr (u "en") ]}, 200%Z),
     Web.mkState (Web.pdf_context s)
       (Web.stdout s ++ [u "An error occurred with the Gemini API: " ++ exn_str e])
       (Web.sent s ++ [(Web.full_prompt py_str v (Web.pdf_context s), 3 # 10)])
       w).
Proof.
  intros Hv Ht Hg. rewrite (chat_accepts_eq m v s Hv Ht), Hg. reflexivity.
Qed.

(** X8: a decoded body that is not a JSON object (a list, a string, a
    number, [null]) makes the handler raise [AttributeError] at
    [data.get]; nothing is printed and no model is called. *)
Theorem chat_non_object_body (data : json) (s : Web.state W) :
  (∀ m, data ≠ JObj m) →
  ∃ e, Web.chat generate_content py_str data s = (Raise e, s)
       ∧ exn_cls e = AttributeError.
Proof.
  intros H. unfold Web.chat, mbind, M_bind, lift.
  destruct data; try (eexists; split; reflexivity).
  by destruct (H m).
Qed.

Lemma chat_sent (data : json) (s : Web.state W) :
  Web.sent (Web.chat generate_content py_str data s).2
  = Web.sent s
    ++ match py_get data (u "query") with
       | Ok v => if truthy v
                 then [(Web.full_prompt py_str v (Web.pdf_context s), 3 # 10)]
                 else []
       | Raise _ => []
       end.
Proof.
  destruct data as [| | | | | |m];
    try (unfold Web.chat, mbind, M_bind, lift; simpl; by rewrite app_nil_r).
  cbn [py_get]. destruct (m !! u "query") as [v |] eqn:Hv; cbn [default from_option id].
  - destruct (truthy v) eqn:Ht.
    + rewrite (chat_accepts_eq m v s Hv Ht).
      destruct (generate_content _ _ (Web.world s)) as [r w]. cbn zeta.
      by destruct (Web.parse_response _).
    + rewrite chat_rejects by (by rewrite Hv). simpl. by rewrite app_nil_r.
  - rewrite chat_rejects by (by rewrite Hv). simpl. by rewrite app_nil_r.
Qed.

(** X9: over any sequence of requests the server calls the model exactly
    once for each body that is an object with a truthy [query], in order,
    always with the knowledge context it started with and temperature 0.3;
    other requests cause no call. *)
Theorem serve_prompts (requests : list json) (s : Web.state W) :
  Web.sent (Web.serve generate_content py_str requests s)
  = Web.sent s
    ++ omap (λ data,
             match py_get data (u "query") with
             | Ok v => if truthy v
                       then Some (Web.full_prompt py_str v (Web.pdf_context s), 3 # 10)
                       else None
             | Raise _ => None
             end) requests.
Proof.
  revert s. induction requests as [|data rest IH]; intros s.
  - simpl. by rewrite app_nil_r.
  - cbn [Web.serve]. rewrite IH, chat_sent, keeps_chat.
    change (omap ?f (data :: rest)) with
      (match f data with Some y => y :: omap f rest | None => omap f rest end).
    cbv beta.
    destruct (py_get data (u "query")) as [v | e]; [| by rewrite app_nil_r].
    destruct (truthy v); [by rewrite <-app_assoc | by rewrite app_nil_r].
Qed.

End WebHandlerMore.

(** ** The loader of the terminal variant *)

Lemma terminal_read_pages_steps (good : list str) (t : str) :
  Terminal.read_pages (map (λ x, Ok (Some x)) good) t
  = (t ++ concat (map (λ x, x ++ [nl]) good), None)
  ∧ (∀ e rest,
       Terminal.read_pages (map (λ x, Ok (Some x)) good ++ Raise e :: rest) t
       = (t ++ concat (map (λ x, x ++ [nl]) good), Some e))
  ∧ (∀ rest,
       Terminal.read_pages (map (λ x, Ok (Some x)) good ++ Ok None :: rest) t
       = (t ++ concat (map (λ x, x ++ [nl]) good), Some Terminal.none_plus_str)).
Proof.
  revert t. induction good as [|x good IH]; intros t.
  - simpl. by rewrite app_nil_r.
  - destruct (IH (t ++ x ++ [nl])) as (H1 & H2 & H3).
    cbn [map app Terminal.read_pages concat].
    split_and!; [| intros e rest | intros rest];
      rewrite ?H1, ?H2, ?H3; by rewrite <-!app_assoc.
Qed.

(** X10: the pages loop of the terminal loader appends the text of each
    page and a newline, empty texts included; at the first page that
    raises, or whose text is [None], it stops with that exception and
    keeps all the text read before. *)
Theorem terminal_read_pages_result (good : list str) (t : str) :
  Terminal.read_pages (map (λ x, Ok (Some x)) good) t
  = (t ++ concat (map (λ x, x ++ [nl]) good), None)
  ∧ (∀ e rest,
       Terminal.read_pages (map (λ x, Ok (Some x)) good ++ Raise e :: rest) t
       = (t ++ concat (map (λ x, x ++ [nl]) good), Some e))
  ∧ (∀ rest,
       Terminal.read_pages (map (λ x, Ok (Some x)) good ++ Ok None :: rest) t
       = (t ++ concat (map (λ x, x ++ [nl]) good), Some Terminal.none_plus_str)).
Proof. apply terminal_read_pages_steps. Qed.

(** X11: on a document in which every page has some text and none
    raises, the loaders of the two variants read the same text. *)
Theorem loaders_agree (texts : list str) (t : str) :
  Forall (λ x, x ≠ []) texts →
  Web.read_pages (map (λ x, Ok (Some x)) texts) t
  = Ok (Terminal.read_pages (map (λ x, Ok (Some x)) texts) t).1.
Proof.
  intros H. revert t. induction H as [|x texts Hx _ IH]; intros t; [done |].
  destruct x as [|c x]; [done |]. cbn [map Web.read_pages Terminal.read_pages].
  apply IH.
Qed.

Lemma loaders_agree_witness :
  Web.read_pages (map (λ x, Ok (Some x)) [u "Sowing"; u "Harvest"]) []
  = Ok (Terminal.read_pages (map (λ x, Ok (Some x)) [u "Sowing"; u "Harvest"]) []).1.
Proof. apply loaders_agree. by repeat constructor. Defined.

Section TerminalLoader.
Context {W : Type}.
Variable pdfplumber_open : str → W → result pdf * W.

Lemma read_path_eq (path t : str) (s : Terminal.state W) :
  Terminal.read_path pdfplumber_open path t s
  = match pdfplumber_open path (Terminal.world s) with
    | (r, w) =>
        let outcome :=
          match r with
          | Ok pages => Terminal.read_pages pages t
          | Raise e => (t, Some e)
          end in
        (Ok outcome.1,
         Terminal.mkState (Terminal.knowledge_context s)
           (Terminal.stdout s
            ++ [match outcome.2 with
                | None => u "  - Successfully processed " ++ basename path
                | Some e =>
                    u "  - Could not read " ++ basename path ++ u ": " ++ exn_str e
                end])
           (Terminal.sent s) (Terminal.spoken s) w)
    end.
Proof.
  unfold Terminal.read_path, Terminal.call.
  destruct (pdfplumber_open path (Terminal.world s)) as [[pages | e] w]; [| done].
  by destruct (Terminal.read_pages pages t) as [t' [e |]].
Qed.

Lemma read_paths_lines (paths : list str) (t : str) (s : Terminal.state W) :
  ∃ t' lines s',
    Terminal.read_paths pdfplumber_open paths t s = (Ok t', s')
    ∧ t `prefix_of` t'
    ∧ Terminal.stdout s' = Terminal.stdout s ++ lines
    ∧ Forall2 (λ path line,
               line = u "  - Successfully processed " ++ basename path
               ∨ ∃ e, line = u "  - Could not read " ++ basename path
                             ++ u ": " ++ exn_str e) paths lines
    ∧ Terminal.knowledge_context s' = Terminal.knowledge_context s
    ∧ Terminal.sent s' = Terminal.sent s
    ∧ Terminal.spoken s' = Terminal.spoken s.
Proof.
  revert t s. induction paths as [|path rest IH]; intros t s.
  - exists t, [], s. rewrite app_nil_r. by split_and!.
  - cbn [Terminal.read_paths]. unfold mbind, M_bind. rewrite read_path_eq.
    destruct (pdfplumber_open path (Terminal.world s)) as [r w]. cbn zeta.
    set (outcome := match r with
                    | Ok pages => Terminal.read_pages pages t
                    | Raise e => (t, Some e)
                    end).
    cbv beta iota.
    assert (t `prefix_of` outcome.1) as Hp.
    { subst outcome. destruct r; [apply read_pages_prefix | done]. }
    match goal with |- context [Terminal.read_paths _ rest _ ?s1] =>
      destruct (IH outcome.1 s1) as (t' & lines & s' & H & Hp' & Ho & Hl & Hk & Hs & Hsp)
    end.
    eexists t', (_ :: lines), s'. rewrite H.
    split_and!; try done.
    + by etrans.
    + rewrite Ho. cbn [Terminal.stdout]. by rewrite <-app_assoc.
    + constructor; [| done]. destruct outcome.2; [right; by eexists | by left].
Qed.

Lemma extract_text_from_pdfs_quiet (paths : list str) (s : Terminal.state W) :
  ∃ text s',
    Terminal.extract_text_from_pdfs pdfplumber_open paths s = (Ok text, s')
    ∧ Terminal.knowledge_context s' = Terminal.knowledge_context s
    ∧ Terminal.sent s' = Terminal.sent s.
Proof.
  unfold Terminal.extract_text_from_pdfs, mbind, M_bind.
  cbv [Terminal.print].
  match goal with |- context [Terminal.read_paths _ paths [] ?s1] =>
    destruct (read_paths_lines paths [] s1)
      as (t' & lines & s' & H & _ & _ & _ & Hk & Hs & _)
  end.
  rewrite H. by eexists t', _.
Qed.

(** X12: [extract_text_from_pdfs] never raises, whatever the files do.
    Between its opening and closing lines it prints one report line for
    each path, in order, naming the file and its outcome; it rebinds no
    knowledge context and calls no model. *)
Theorem extract_text_from_pdfs_reports (paths : list str) (s : Terminal.state W) :
  ∃ text lines s',
    Terminal.extract_text_from_pdfs pdfplumber_open paths s = (Ok text, s')
    ∧ Terminal.stdout s'
      = Terminal.stdout s ++ [u "Extracting text from PDF documents..."]
        ++ lines ++ [u "Extraction complete." ++ [nl]]
    ∧ Forall2 (λ path line,
               line = u "  - Successfully processed " ++ basename path
               ∨ ∃ e, line = u "  - Could not read " ++ basename path
                             ++ u ": " ++ exn_str e) paths lines
    ∧ Terminal.knowledge_context s' = Terminal.knowledge_context s
    ∧ Terminal.sent s' = Terminal.sent s.
Proof.
  unfold Terminal.extract_text_from_pdfs, mbind, M_bind.
  cbv [Terminal.print].
  match goal with |- context [Terminal.read_paths _ paths [] ?s1] =>
    destruct (read_paths_lines paths [] s1)
      as (t' & lines & s' & H & _ & Ho & Hl & Hk & Hs & _)
  end.
  rewrite H. eexists t', lines, _. split; [reflexivity |].
  cbn [Terminal.stdout Terminal.knowledge_context Terminal.sent] in *.
  split_and!; [| done | done | done].
  rewrite Ho. by rewrite <-!app_assoc.
Qed.

(** X13: when every file of the batch opens and every page has text, the
    result is the text of all pages of all files in order, each page
    followed by a newline, and every file is reported as processed. *)
Theorem extract_text_from_pdfs_all_read (doc : str → list str)
    (paths : list str) (s : Terminal.state W) :
  (∀ path w, path ∈ paths →
             ∃ w', pdfplumber_open path w
                   = (Ok (map (λ x, Ok (Some x)) (doc path)), w')) →
  ∃ s',
    Terminal.extract_text_from_pdfs pdfplumber_open paths s
    = (Ok (concat (map (λ path, concat (map (λ x, x ++ [nl]) (doc path))) paths)),
       s')
    ∧ Terminal.stdout s'
      = Terminal.stdout s ++ [u "Extracting text from PDF documents..."]
        ++ map (λ path, u "  - Successfully processed " ++ basename path) paths
        ++ [u "Extraction complete." ++ [nl]].
Proof.
  intros Hdoc.
  assert (∀ t (s0 : Terminal.state W), ∃ s1,
            Terminal.read_paths pdfplumber_open paths t s0
            = (Ok (t ++ concat (map (λ path, concat (map (λ x, x ++ [nl]) (doc path)))
                                  paths)), s1)
            ∧ Terminal.stdout s1
              = Terminal.stdout s0
                ++ map (λ path, u "  - Successfully processed " ++ basename path)
                     paths) as Hpaths.
  { induction paths as [|path rest IH]; intros t s0.
    - exists s0. simpl. by rewrite !app_nil_r.
    - cbn [Terminal.read_paths]. unfold mbind, M_bind. rewrite read_path_eq.
      destruct (Hdoc path (Terminal.world s0)) as (w' & ->); [by left |].
      cbn zeta. destruct (terminal_read_pages_steps (doc path) t) as (-> & _).
      cbn [fst snd].
      match goal with |- context [Terminal.read_paths _ rest _ ?s1] =>
        destruct (IH (λ p w Hp, Hdoc p w (list_elem_of_further _ _ _ Hp))
                    (t ++ concat (map (λ x, x ++ [nl]) (doc path))) s1)
          as (s2 & H & Ho)
      end.
      exists s2. rewrite H. split.
      + cbn [map concat]. by rewrite <-!app_assoc.
      + rewrite Ho. cbn [Terminal.stdout map]. by rewrite <-app_assoc. }
  unfold Terminal.extract_text_from_pdfs, mbind, M_bind. cbv [Terminal.print].
  match goal with |- context [Terminal.read_paths _ paths [] ?s1] =>
    destruct (Hpaths [] s1) as (s2 & H & Ho)
  end.
  rewrite H. eexists. split; [reflexivity |].
  cbn [Terminal.stdout] in *. rewrite Ho. by rewrite <-!app_assoc.
Qed.

End TerminalLoader.

(** ** Speech and the conversation loop *)

Section TerminalTalk.
Context {W audio : Type}.
Variable generate_content : str → Q → W → result str * W.
Variable lower : str → str.
Variable microphone : W → result () * W.
Variable listen : W → result audio * W.
Variable recognize_google : audio → str → W → result str * W.
Variable detect : str → W → result str * W.
Variable gtts_save : str → str → W → result () * W.
Variable playsound : W → result () * W.

Lemma turn_eq (line : str) :
  Terminal.turn generate_content lower microphone listen recognize_google
    detect gtts_save playsound line
  = let user_input := lower (strip line) in
    if bool_decide (user_input = u "exit") then mret Terminal.Break
    else if bool_decide (user_input = u "speak") then
      heard ← Terminal.listen_for_input microphone listen recognize_google;
      match heard with
      | Some (c :: q, lang) => respond generate_content gtts_save playsound (c :: q) lang
      | Some ([], _) | None => mret Terminal.Continue
      end
    else
      lang ← try_except
               (detected_lang ← Terminal.call (detect user_input);
                mret (if bool_decide (detected_lang = u "ml")
                      then u "ml" else u "en"))
               (λ e,
                match exn_cls e with
                | LangDetectException => mret (u "en")
                | _ => lift (Raise e)
                end);
      respond generate_content gtts_save playsound user_input lang.
Proof. reflexivity. Qed.

Lemma ret_eq {S A} (a : A) (s : S) : mret (M:=M S) a s = (Ok a, s).
Proof. reflexivity. Qed.

Lemma terminal_get_gemini_response_eq (q ctx : str) (s : Terminal.state W) :
  Terminal.get_gemini_response generate_content q ctx s
  = match generate_content (Terminal.combined_prompt q ctx) (2 # 10)
            (Terminal.world s) with
    | (r, w) =>
        (Ok match r with Ok text => text | Raise _ => Terminal.apology end,
         Terminal.mkState (Terminal.knowledge_context s)
           (Terminal.stdout s
            ++ u "Thinking..."
               :: match r with
                  | Ok _ => []
                  | Raise e =>
                      [u "An error occurred with the Gemini API: " ++ exn_str e]
                  end)
           (Terminal.sent s ++ [(Terminal.combined_prompt q ctx, 2 # 10)])
           (Terminal.spoken s) w)
    end.
Proof.
  unfold Terminal.get_gemini_response, try_except, mbind, M_bind,
    Terminal.model_generate_content.
  cbv [Terminal.print].
  cbn [Terminal.world Terminal.stdout Terminal.sent Terminal.spoken
         Terminal.knowledge_context].
  destruct (generate_content _ _ (Terminal.world s)) as [[text | e] w].
  - reflexivity.
  - cbv [mret M_ret].
    cbn [Terminal.world Terminal.stdout Terminal.sent Terminal.spoken
           Terminal.knowledge_context].
    by rewrite <-app_assoc.
Qed.

Lemma speak_response_cases (text lang : str) (s : Terminal.state W) :
  let line := u "Krishi Sakhi (" ++ lang ++ u "): " ++ text in
  let failed e := [nl] ++ u "Error in text-to-speech or playback: " ++ exn_str e in
  ∃ s',
    Terminal.speak_response gtts_save playsound text lang s = (Ok (), s')
    ∧ last (Terminal.stdout s') = Some line
    ∧ Terminal.knowledge_context s' = Terminal.knowledge_context s
    ∧ Terminal.sent s' = Terminal.sent s
    ∧ ((Terminal.stdout s' = Terminal.stdout s ++ [line]
        ∧ Terminal.spoken s' = Terminal.spoken s ++ [(text, lang)])
       ∨ (∃ e, Terminal.stdout s' = Terminal.stdout s ++ [failed e; line]
               ∧ Terminal.spoken s' = Terminal.spoken s
               ∧ (gtts_save text lang (Terminal.world s)).1 = Raise e)
       ∨ (∃ e, Terminal.stdout s' = Terminal.stdout s ++ [line; failed e; line]
               ∧ Terminal.spoken s' = Terminal.spoken s
               ∧ (gtts_save text lang (Terminal.world s)).1 = Ok ())).
Proof.
  intros line failed.
  unfold Terminal.speak_response, try_except, mbind, M_bind, Terminal.call,
    Terminal.play.
  cbv [Terminal.print mret M_ret].
  cbn [Terminal.world Terminal.stdout Terminal.sent Terminal.spoken
         Terminal.knowledge_context].
  destruct (gtts_save text lang (Terminal.world s)) as [[[] | e] w].
  - cbn [Terminal.world Terminal.stdout Terminal.sent Terminal.spoken
           Terminal.knowledge_context].
    destruct (playsound w) as [[[] | e] w'];
      cbn [Terminal.world Terminal.stdout Terminal.sent Terminal.spoken
             Terminal.knowledge_context].
    + eexists. split; [reflexivity |].
      cbn [Terminal.world Terminal.stdout Terminal.sent Terminal.spoken
             Terminal.knowledge_context].
      split_and!; [apply last_snoc | done | done | by left].
    + eexists. split; [reflexivity |].
      cbn [Terminal.world Terminal.stdout Terminal.sent Terminal.spoken
             Terminal.knowledge_context].
      split_and!; [apply last_snoc | done | done |].
      right. right. exists e. by rewrite <-!app_assoc.
  - cbn [Terminal.world Terminal.stdout Terminal.sent Terminal.spoken
           Terminal.knowledge_context].
    eexists. split; [reflexivity |].
    cbn [Terminal.world Terminal.stdout Terminal.sent Terminal.spoken
           Terminal.knowledge_context].
    split_and!; [apply last_snoc | done | done |].
    right. left. exists e. by rewrite <-!app_assoc.
Qed.

(** X14: [speak_response] never raises, and the last thing it prints is
    always the response line.  Either the speech is saved and played (one
    line, and the text is recorded as spoken), or saving fails (an error
    line, then the response line), or playing fails after the response
    line was printed (the response line, an error line, and the response
    line once more); nothing is spoken in the last two cases. *)
Theorem speak_response_outcomes (text lang : str) (s : Terminal.state W) :
  let line := u "Krishi Sakhi (" ++ lang ++ u "): " ++ text in
  let failed e := [nl] ++ u "Error in text-to-speech or playback: " ++ exn_str e in
  ∃ s',
    Terminal.speak_response gtts_save playsound text lang s = (Ok (), s')
    ∧ last (Terminal.stdout s') = Some line
    ∧ Terminal.knowledge_context s' = Terminal.knowledge_context s
    ∧ Terminal.sent s' = Terminal.sent s
    ∧ ((Terminal.stdout s' = Terminal.stdout s ++ [line]
        ∧ Terminal.spoken s' = Terminal.spoken s ++ [(text, lang)])
       ∨ (∃ e, Terminal.stdout s' = Terminal.stdout s ++ [failed e; line]
               ∧ Terminal.spoken s' = Terminal.spoken s
               ∧ (gtts_save text lang (Terminal.world s)).1 = Raise e)
       ∨ (∃ e, Terminal.stdout s' = Terminal.stdout s ++ [line; failed e; line]
               ∧ Terminal.spoken s' = Terminal.spoken s
               ∧ (gtts_save text lang (Terminal.world s)).1 = Ok ())).
Proof. apply speak_response_cases. Qed.

Ltac tnorm :=
  cbn [Terminal.world Terminal.stdout Terminal.sent Terminal.spoken
         Terminal.knowledge_context].

Ltac oracle_cases :=
  repeat match goal with
         | |- context [match ?f ?w with (_, _) => _ end] =>
             lazymatch type of w with
             | W => destruct (f w) as [[? | ?] ?] eqn:?; tnorm
             end
         | |- context [match exn_cls ?e with _ => _ end] =>
             destruct (exn_cls e) eqn:?; tnorm
         end.

(** X15: whatever [listen_for_input] returns, it has called no model.  A
    recognised query comes with language [ml] or [en], and the last line
    printed is the matching "Heard" line; when it returns nothing, the last
    line printed says why. *)
Theorem listen_for_input_result (s s' : Terminal.state W)
    (r : option (str * str)) :
  Terminal.listen_for_input microphone listen recognize_google s = (Ok r, s') →
  Terminal.sent s' = Terminal.sent s
  ∧ Terminal.knowledge_context s' = Terminal.knowledge_context s
  ∧ match r with
    | Some (query, lang) =>
        (lang = u "ml" ∨ lang = u "en")
        ∧ last (Terminal.stdout s')
          = Some (u "Heard (" ++ lang ++ u "): " ++ query)
    | None =>
        last (Terminal.stdout s') = Some (u "Sorry, I could not understand the audio.")
        ∨ (∃ e, last (Terminal.stdout s')
                = Some (u "Could not request results from Google Speech Recognition service; "
                        ++ exn_str e))
        ∨ (∃ e, last (Terminal.stdout s')
                = Some (u "An unknown error occurred during speech recognition: "
                        ++ exn_str e))
    end.
Proof.
  unfold Terminal.listen_for_input, try_except, mbind, M_bind, Terminal.call, lift.
  cbv [Terminal.print mret M_ret]. tnorm.
  oracle_cases; intros [= <- <-]; tnorm;
    (split; [done |]); (split; [done |]);
    rewrite ?last_snoc; eauto 6.
Qed.

(** X16: errors of the Malayalam attempt are all handled, but in the
    English fallback only [UnknownValueError] is: any other error raised
    there (a request error, say) leaves [listen_for_input] as an
    exception, after the three progress lines. *)
Theorem listen_for_input_fallback_raises (s : Terminal.state W) (sound : audio)
    (e1 e2 : exn) (w1 w2 w3 w4 : W) :
  microphone (Terminal.world s) = (Ok (), w1) →
  listen w1 = (Ok sound, w2) →
  recognize_google sound (u "ml-IN") w2 = (Raise e1, w3) →
  exn_cls e1 = UnknownValueError →
  recognize_google sound (u "en-IN") w3 = (Raise e2, w4) →
  exn_cls e2 ≠ UnknownValueError →
  Terminal.listen_for_input microphone listen recognize_google s
  = (Raise e2,
     Terminal.mkState (Terminal.knowledge_context s)
       (Terminal.stdout s
        ++ [[nl] ++ u "Listening... (Speak now)";
            u "Recognizing (as Malayalam)...";
            u "Recognizing (as English)..."])
       (Terminal.sent s) (Terminal.spoken s) w4).
Proof.
  intros Hm Hl H1 Hc1 H2 Hc2.
  unfold Terminal.listen_for_input, try_except, mbind, M_bind, Terminal.call, lift.
  cbv [Terminal.print mret M_ret]. tnorm.
  rewrite Hm. tnorm. rewrite Hl. tnorm. rewrite H1. tnorm. rewrite Hc1.
  tnorm. rewrite H2. tnorm.
  destruct (exn_cls e2); try done; by rewrite <-!app_assoc.
Qed.

Lemma bind_eq {S A B} (m : M S A) (k : A → M S B) (s : S) :
  (m ≫= k) s
  = match m s with
    | (Ok a, s') => k a s'
    | (Raise e, s') => (Raise e, s')
    end.
Proof. reflexivity. Qed.

Lemma respond_result (query lang : str) (s : Terminal.state W) :
  ∃ reply s',
    respond generate_content gtts_save playsound query lang s
    = (Ok Terminal.Continue, s')
    ∧ Terminal.sent s'
      = Terminal.sent s
        ++ [(Terminal.combined_prompt query (Terminal.knowledge_context s), 2 # 10)]
    ∧ Terminal.knowledge_context s' = Terminal.knowledge_context s
    ∧ last (Terminal.stdout s')
      = Some (u "Krishi Sakhi (" ++ lang ++ u "): " ++ reply)
    ∧ reply
      = match (generate_content
                 (Terminal.combined_prompt query (Terminal.knowledge_context s))
                 (2 # 10) (Terminal.world s)).1 with
        | Ok text => text
        | Raise _ => Terminal.apology
        end.
Proof.
  unfold respond. rewrite bind_eq. unfold Terminal.get_knowledge_context.
  rewrite bind_eq, terminal_get_gemini_response_eq.
  destruct (generate_content _ _ (Terminal.world s)) as [r w].
  set (reply := match r with Ok text => text | Raise _ => Terminal.apology end).
  rewrite bind_eq.
  match goal with |- context [Terminal.speak_response _ _ reply lang ?s1] =>
    destruct (speak_response_cases reply lang s1)
      as (s' & H & Hlast & Hk & Hs & _)
  end.
  rewrite H. exists reply, s'.
  cbn [fst Terminal.world Terminal.stdout Terminal.sent Terminal.spoken
         Terminal.knowledge_context] in *.
  by split_and!.
Qed.

Lemma listen_for_input_quiet (s : Terminal.state W) :
  Terminal.sent (Terminal.listen_for_input microphone listen recognize_google s).2
  = Terminal.sent s.
Proof.
  unfold Terminal.listen_for_input, try_except, mbind, M_bind, Terminal.call, lift.
  cbv [Terminal.print mret M_ret]. tnorm.
  oracle_cases; done.
Qed.

Lemma turn_sent (line : str) (s : Terminal.state W) :
  let s' := (Terminal.turn generate_content lower microphone listen
               recognize_google detect gtts_save playsound line s).2 in
  Terminal.sent s' = Terminal.sent s
  ∨ ∃ query,
      Terminal.sent s'
      = Terminal.sent s
        ++ [(Terminal.combined_prompt query (Terminal.knowledge_context s), 2 # 10)].
Proof.
  cbv zeta. rewrite turn_eq. cbv zeta. case_bool_decide; [by left |].
  case_bool_decide.
  - rewrite bind_eq.
    pose proof (listen_for_input_quiet s) as Hq.
    pose proof (kk_listen_for_input microphone listen recognize_google s) as Hk.
    destruct (Terminal.listen_for_input _ _ _ s) as [[[[[|c q] lang] |] | e] s1];
      cbn [snd] in *; try by left.
    destruct (respond_result (c :: q) lang s1) as (reply & s' & -> & Hs & _).
    right. exists (c :: q). cbn [snd]. by rewrite Hs, Hq, Hk.
  - rewrite bind_eq. unfold try_except. rewrite bind_eq.
    unfold Terminal.call, lift.
    destruct (detect _ (Terminal.world s)) as [[d | e] w].
    + rewrite ret_eq.
      match goal with |- context [respond _ _ _ ?q ?l ?s1] =>
        destruct (respond_result q l s1) as (reply & s' & -> & Hs & _)
      end.
      right. eexists. cbn [snd]. by rewrite Hs.
    + destruct (exn_cls e); try by left.
      rewrite ret_eq.
      match goal with |- context [respond _ _ _ ?q ?l ?s1] =>
        destruct (respond_result q l s1) as (reply & s' & -> & Hs & _)
      end.
      right. eexists. cbn [snd]. by rewrite Hs.
Qed.

Lemma conversation_sent (lines : list str) (s : Terminal.state W) :
  ∃ queries,
    Terminal.sent (Terminal.conversation generate_content lower microphone listen
                     recognize_google detect gtts_save playsound lines s).2
    = Terminal.sent s
      ++ map (λ q, (Terminal.combined_prompt q (Terminal.knowledge_context s), 2 # 10))
           queries
    ∧ length queries ≤ length lines.
Proof.
  revert s. induction lines as [|line rest IH]; intros s.
  - exists []. simpl. by rewrite app_nil_r.
  - cbn [Terminal.conversation]. rewrite bind_eq.
    pose proof (turn_sent line s) as Ht.
    pose proof (kk_turn generate_content lower microphone listen recognize_google
                  detect gtts_save playsound line s) as Hk.
    destruct (Terminal.turn _ _ _ _ _ _ _ _ line s) as [[[|] | e] s1];
      cbv beta iota; rewrite ?ret_eq; cbn [snd] in *.
    + destruct (IH s1) as (qs & Hqs & Hlen).
      destruct Ht as [Hs | [q Hs]].
      * exists qs. split; [by rewrite Hqs, Hk, Hs | simpl; lia].
      * exists (q :: qs). split; [| simpl; lia].
        rewrite Hqs, Hk, Hs. by rewrite <-app_assoc.
    + destruct Ht as [-> | [q ->]]; [exists [] | exists [q]];
        (split; [by rewrite ?app_nil_r | simpl; lia]).
    + destruct Ht as [-> | [q ->]]; [exists [] | exists [q]];
        (split; [by rewrite ?app_nil_r | simpl; lia]).
Qed.

(** X17: a conversation sends the model nothing but prompts built from the
    knowledge context it started with, at temperature 0.2, and at most one
    for each line of input. *)
Theorem conversation_prompts (lines : list str) (s : Terminal.state W) :
  ∃ queries,
    Terminal.sent (Terminal.conversation generate_content lower microphone listen
                     recognize_google detect gtts_save playsound lines s).2
    = Terminal.sent s
      ++ map (λ q, (Terminal.combined_prompt q (Terminal.knowledge_context s), 2 # 10))
           queries
    ∧ length queries ≤ length lines.
Proof. apply conversation_sent. Qed.

(** X18: the conversation ends normally only at a line that reads [exit]
    (after trimming and lower-casing), and nothing after that line is
    read; if the input ends before such a line, or a round raises, the
    conversation ends with an exception. *)
Theorem conversation_ends_at_exit (lines : list str) (s : Terminal.state W) :
  (∀ s', Terminal.conversation generate_content lower microphone listen
           recognize_google detect gtts_save playsound lines s = (Ok (), s') →
         ∃ before line after,
           lines = before ++ line :: after
           ∧ lower (strip line) = u "exit"
           ∧ Forall (λ l, lower (strip l) ≠ u "exit") before
           ∧ Terminal.conversation generate_content lower microphone listen
               recognize_google detect gtts_save playsound (before ++ [line]) s
             = (Ok (), s'))
  ∧ (Forall (λ l, lower (strip l) ≠ u "exit") lines →
     ∃ e s', Terminal.conversation generate_content lower microphone listen
               recognize_google detect gtts_save playsound lines s
             = (Raise e, s')).
Proof.
  revert s. induction lines as [|line rest IH]; intros s.
  - split; [done | intros _; by eexists _, _].
  - cbn [Terminal.conversation]. unfold mbind, M_bind.
    destruct (decide (lower (strip line) = u "exit")) as [Hexit | Hexit].
    + split.
      * intros s' H. exists [], line, rest. split_and!; try done.
        cbn [app Terminal.conversation]. unfold mbind, M_bind.
        revert H. rewrite turn_eq. cbv zeta.
        by rewrite !bool_decide_eq_true_2 by done.
      * intros H. by apply Forall_cons in H as [? _].
    + assert (∀ s1, Terminal.turn generate_content lower microphone listen
                      recognize_google detect gtts_save playsound line s
                    ≠ (Ok Terminal.Break, s1)) as Hnb.
      { intros s1. rewrite turn_eq. cbv zeta.
        rewrite bool_decide_eq_false_2 by done.
        case_bool_decide.
        - rewrite bind_eq.
          destruct (Terminal.listen_for_input _ _ _ s)
            as [[[[[|c q] lang] |] | e] s2]; try done.
          by destruct (respond_result (c :: q) lang s2) as (? & ? & -> & _).
        - rewrite bind_eq. unfold try_except. rewrite bind_eq.
          unfold Terminal.call, lift.
          destruct (detect _ (Terminal.world s)) as [[d | e] w].
          + rewrite ret_eq.
            match goal with |- context [respond _ _ _ ?q ?l ?s2] =>
              by destruct (respond_result q l s2) as (? & ? & -> & _)
            end.
          + destruct (exn_cls e); try done.
            rewrite ret_eq.
            match goal with |- context [respond _ _ _ ?q ?l ?s2] =>
              by destruct (respond_result q l s2) as (? & ? & -> & _)
            end. }
      destruct (Terminal.turn _ _ _ _ _ _ _ _ line s) as [[[|] | e] s1] eqn:Ht.
      * destruct (IH s1) as [IH1 IH2]. split.
        -- intros s' H. destruct (IH1 s' H) as (before & l & after & -> & ? & ? & Hc).
           exists (line :: before), l, after. split_and!; try done.
           ++ by constructor.
           ++ cbn [app Terminal.conversation]. unfold mbind, M_bind. by rewrite Ht.
        -- intros H. apply Forall_cons in H as [_ H]. by apply IH2.
      * by destruct (Hnb s1).
      * split; [done | intros _; by eexists _, _].
Qed.

End TerminalTalk.

Section TerminalMain.
Context {W audio : Type}.
Variable pdfplumber_open : str → W → result pdf * W.
Variable path_exists : str → W → bool.
Variable generate_content : str → Q → W → result str * W.
Variable lower : str → str.
Variable microphone : W → result () * W.
Variable listen : W → result audio * W.
Variable recognize_google : audio → str → W → result str * W.
Variable detect : str → W → result str * W.
Variable gtts_save : str → str → W → result () * W.
Variable playsound : W → result () * W.


(** X20: when language detection raises anything but
    [LangDetectException], the round raises that exception: the model is
    not called and nothing is printed. *)
Theorem turn_detect_raises (line : str) (e : exn) (w1 : W) (s : Terminal.state W) :
  lower (strip line) ≠ u "exit" → lower (strip line) ≠ u "speak" →
  detect (lower (strip line)) (Terminal.world s) = (Raise e, w1) →
  exn_cls e ≠ LangDetectException →
  Terminal.turn generate_content lower microphone listen recognize_google
    detect gtts_save playsound line s
  = (Raise e,
     Terminal.mkState (Terminal.knowledge_context s) (Terminal.stdout s)
       (Terminal.sent s) (Terminal.spoken s) w1).
Proof.
  intros Hexit Hspeak Hd Hc.
  rewrite (turn_eq generate_content lower microphone listen recognize_google
             detect gtts_save playsound). cbv zeta.
  rewrite !bool_decide_eq_false_2 by done.
  rewrite bind_eq. unfold try_except. rewrite bind_eq.
  unfold Terminal.call, lift. rewrite Hd.
  by destruct (exn_cls e).
Qed.

Lemma collect_pdf_files_state (lines files0 : list str) (s : Terminal.state W) :
  let s' := (Terminal.collect_pdf_files path_exists lower lines files0 s).2 in
  Terminal.world s' = Terminal.world s
  ∧ Terminal.sent s' = Terminal.sent s
  ∧ Terminal.knowledge_context s' = Terminal.knowledge_context s.
Proof.
  cbv zeta. revert files0 s. induction lines as [|line rest IH]; intros files0 s.
  - done.
  - cbn [Terminal.collect_pdf_files]. cbv zeta. case_bool_decide.
    + destruct files0 as [|f files0]; [| done].
      rewrite bind_eq. cbv [Terminal.print].
      match goal with |- context [Terminal.collect_pdf_files _ _ rest ?f ?s1] =>
        destruct (IH f s1) as (-> & -> & ->)
      end. done.
    + destruct (path_exists _ _ && _); [apply IH |].
      rewrite bind_eq. cbv [Terminal.print].
      match goal with |- context [Terminal.collect_pdf_files _ _ rest ?f ?s1] =>
        destruct (IH f s1) as (-> & -> & ->)
      end. done.
Qed.


(** X22: whatever the input and the files, every prompt that [main] sends to
    the model is built from a knowledge context that is not blank, at
    temperature 0.2: with no extractable text [main] stops before the
    conversation. *)
Theorem main_prompts (lines : list str) (s : Terminal.state W) :
  ∃ prompts,
    Terminal.sent (Terminal.main pdfplumber_open path_exists generate_content
                     lower microphone listen recognize_google detect gtts_save
                     playsound lines s).2
    = Terminal.sent s ++ prompts
    ∧ Forall (λ p, ∃ query context,
                p = (Terminal.combined_prompt query context, 2 # 10)
                ∧ strip context ≠ []) prompts.
Proof.
  unfold Terminal.main. do 5 (rewrite bind_eq; cbv [Terminal.print]).
  rewrite bind_eq.
  match goal with |- context [Terminal.collect_pdf_files _ _ lines [] ?s1] =>
    pose proof (collect_pdf_files_state lines [] s1) as (_ & Hs1 & _);
    destruct (Terminal.collect_pdf_files path_exists lower lines [] s1)
      as [[[files rest] | e] s2]
  end; cbn [snd Terminal.sent] in Hs1.
  2:{ exists []. cbn [snd]. by rewrite app_nil_r, Hs1. }
  cbv beta iota. cbn [fst snd]. rewrite bind_eq.
  destruct (extract_text_from_pdfs_quiet pdfplumber_open files s2)
    as (text & s3 & -> & _ & Hs3).
  rewrite bind_eq. cbv [Terminal.set_knowledge_context].
  destruct (strip text) as [|c t] eqn:Htext.
  - exists []. cbv [Terminal.print]. cbn [snd Terminal.sent].
    by rewrite app_nil_r, Hs3, Hs1.
  - do 3 (rewrite bind_eq; cbv [Terminal.print]). rewrite bind_eq.
    match goal with |- context [Terminal.conversation _ _ _ _ _ _ _ _ ?l ?s4] =>
      destruct (conversation_sent generate_content lower microphone listen
                  recognize_google detect gtts_save playsound l s4)
        as (qs & Hqs & _);
      destruct (Terminal.conversation generate_content lower microphone listen
                  recognize_google detect gtts_save playsound l s4)
        as [[[] | e] s5]
    end; cbn [snd Terminal.sent Terminal.knowledge_context] in Hqs;
      cbv [Terminal.print]; cbn [snd Terminal.sent];
      eexists; (split; [by rewrite Hqs, Hs3, Hs1 |]);
      apply Forall_map, Forall_forall; intros q _; exists q, text;
      (split; [done | by rewrite Htext]).
Qed.

End TerminalMain.

Lemma load_initial_context_loaded_witness :
  Web.load_initial_context Stub.open_rice Stub.path_exists Sample.web
  = (Ok (),
     Web.mkState
       (concat (map (λ x, x ++ [nl])
                  (filter (λ x, x ≠ []) (omap id [Some (u "Rice"); None]))))
       (Web.stdout Sample.web
        ++ [u "Loading knowledge base from 'pop2016.pdf'...";
            u "Knowledge base loaded successfully."])
       (Web.sent Sample.web) ()).
Proof.
  apply (load_initial_context_loaded Stub.open_rice Stub.path_exists
           [Some (u "Rice"); None] () Sample.web).
  - reflexivity.
  - reflexivity.
  - vm_compute. discriminate.
Defined.

Lemma chat_model_failure_witness :
  Web.chat (Sample.replies (Raise Sample.quota)) Sample.py_str
    (JObj {[ u "query" := JStr (u "hello") ]}) Sample.web
  = (Ok ({[ u "response" :=
              JStr (u "Sorry, I am having trouble connecting to my brain right now. Please try again later.");
            u "lang" := JStr (u "en") ]}, 200%Z),
     Web.mkState (Web.pdf_context Sample.web)
       (Web.stdout Sample.web
        ++ [u "An error occurred with the Gemini API: " ++ exn_str Sample.quota])
       (Web.sent Sample.web
        ++ [(Web.full_prompt Sample.py_str (JStr (u "hello"))
               (Web.pdf_context Sample.web), 3 # 10)])
       ()).
Proof.
  apply (chat_model_failure (Sample.replies (Raise Sample.quota)) Sample.py_str
           {[ u "query" := JStr (u "hello") ]} (JStr (u "hello")) Sample.quota ()
           Sample.web).
  - reflexivity.
  - reflexivity.
  - reflexivity.
Defined.

Lemma chat_non_object_body_witness :
  ∃ e, Web.chat (Sample.replies (Ok (u "ok"))) Sample.py_str
         (JArr [JStr (u "query")]) Sample.web
       = (Raise e, Sample.web)
       ∧ exn_cls e = AttributeError.
Proof.
  apply (chat_non_object_body (Sample.replies (Ok (u "ok"))) Sample.py_str
           (JArr [JStr (u "query")]) Sample.web).
  intros m. discriminate.
Defined.

Lemma extract_text_from_pdfs_all_read_witness :
  ∃ s',
    Terminal.extract_text_from_pdfs Stub.open_doc [u "a.pdf"; u "b/c.pdf"]
      Sample.terminal
    = (Ok (concat (map (λ path, concat (map (λ x, x ++ [nl]) (Stub.doc path)))
                     [u "a.pdf"; u "b/c.pdf"])), s')
    ∧ Terminal.stdout s'
      = Terminal.stdout Sample.terminal
        ++ [u "Extracting text from PDF documents..."]
        ++ map (λ path, u "  - Successfully processed " ++ basename path)
             [u "a.pdf"; u "b/c.pdf"]
        ++ [u "Extraction complete." ++ [nl]].
Proof.
  apply (extract_text_from_pdfs_all_read Stub.open_doc Stub.doc).
  intros path w _. exists w. reflexivity.
Defined.

Lemma listen_for_input_result_witness :
  Terminal.sent (Terminal.listen_for_input Stub.microphone Stub.listen
                   Stub.recognize_ml Sample.terminal).2
  = Terminal.sent Sample.terminal
  ∧ Terminal.knowledge_context
      (Terminal.listen_for_input Stub.microphone Stub.listen
         Stub.recognize_ml Sample.terminal).2
    = Terminal.knowledge_context Sample.terminal
  ∧ (u "ml" = u "ml" ∨ u "ml" = u "en")
  ∧ last (Terminal.stdout
            (Terminal.listen_for_input Stub.microphone Stub.listen
               Stub.recognize_ml Sample.terminal).2)
    = Some (u "Heard (" ++ u "ml" ++ u "): " ++ u "vellam").
Proof.
  apply (listen_for_input_result Stub.microphone Stub.listen Stub.recognize_ml
           Sample.terminal
           (Terminal.listen_for_input Stub.microphone Stub.listen
              Stub.recognize_ml Sample.terminal).2
           (Some (u "vellam", u "ml"))).
  reflexivity.
Defined.

Lemma listen_for_input_fallback_raises_witness :
  Terminal.listen_for_input Stub.microphone Stub.listen Stub.recognize_offline
    Sample.terminal
  = (Raise Stub.request_error,
     Terminal.mkState (Terminal.knowledge_context Sample.terminal)
       (Terminal.stdout Sample.terminal
        ++ [[nl] ++ u "Listening... (Speak now)";
            u "Recognizing (as Malayalam)...";
            u "Recognizing (as English)..."])
       (Terminal.sent Sample.terminal) (Terminal.spoken Sample.terminal) ()).
Proof.
  apply (listen_for_input_fallback_raises Stub.microphone Stub.listen
           Stub.recognize_offline Sample.terminal () Stub.unknown_value
           Stub.request_error () () () ()).
  - reflexivity.
  - reflexivity.
  - reflexivity.
  - reflexivity.
  - reflexivity.
  - discriminate.
Defined.

Lemma conversation_ends_at_exit_witness :
  (∃ before line after,
     [u "hello"; u " EXIT "; u "more"] = before ++ line :: after
     ∧ Stub.lower (strip line) = u "exit"
     ∧ Forall (λ l, Stub.lower (strip l) ≠ u "exit") before
     ∧ Terminal.conversation (Sample.replies (Ok (u "ok"))) Stub.lower
         Stub.microphone Stub.listen Stub.recognize_ml Stub.detect_en
         Stub.gtts_save Stub.playsound (before ++ [line]) Sample.terminal
       = (Ok (),
          (Terminal.conversation (Sample.replies (Ok (u "ok"))) Stub.lower
             Stub.microphone Stub.listen Stub.recognize_ml Stub.detect_en
             Stub.gtts_save Stub.playsound [u "hello"; u " EXIT "; u "more"]
             Sample.terminal).2))
  ∧ (∃ e s',
       Terminal.conversation (Sample.replies (Ok (u "ok"))) Stub.lower
         Stub.microphone Stub.listen Stub.recognize_ml Stub.detect_en
         Stub.gtts_save Stub.playsound [u "hello"] Sample.terminal
       = (Raise e, s')).
Proof.
  split.
  - apply (proj1 (conversation_ends_at_exit (Sample.replies (Ok (u "ok")))
                    Stub.lower Stub.microphone Stub.listen Stub.recognize_ml
                    Stub.detect_en Stub.gtts_save Stub.playsound
                    [u "hello"; u " EXIT "; u "more"] Sample.terminal)).
    reflexivity.
  - apply (proj2 (conversation_ends_at_exit (Sample.replies (Ok (u "ok")))
                    Stub.lower Stub.microphone Stub.listen Stub.recognize_ml
                    Stub.detect_en Stub.gtts_save Stub.playsound
                    [u "hello"] Sample.terminal)).
    repeat constructor. vm_compute. discriminate.
Defined.


Lemma turn_detect_raises_witness :
  Terminal.turn (Sample.replies (Ok (u "ok"))) Stub.lower Stub.microphone
    Stub.listen Stub.recognize_ml Stub.detect_broken Stub.gtts_save
    Stub.playsound (u "hello") Sample.terminal
  = (Raise (mkExn OtherException (u "profiles not loaded")),
     Terminal.mkState (Terminal.knowledge_context Sample.terminal)
       (Terminal.stdout Sample.terminal) (Terminal.sent Sample.terminal)
       (Terminal.spoken Sample.terminal) ()).
Proof.
  apply (turn_detect_raises (Sample.replies (Ok (u "ok"))) Stub.lower
           Stub.microphone Stub.listen Stub.recognize_ml Stub.detect_broken
           Stub.gtts_save Stub.playsound (u "hello")
           (mkExn OtherException (u "profiles not loaded")) () Sample.terminal).
  - vm_compute. discriminate.
  - vm_compute. discriminate.
  - reflexivity.
  - discriminate.
Defined.

